(** * Manimator front end: session store, job client, job poller, chat transcript

    A shallow embedding of the client-side logic of the repository:

    - [Auth]      : the [AuthProvider] of [hooks/use-auth] (validateToken, logout);
    - [Animation] : the [useAnimation] hook (generate, status, list, delete, get);
    - [ChatService] and [Chat] : [services/chat-service.ts] and the [ChatProvider];
    - [Generator] : the polling effect of [components/animation/animation-generator.tsx].

    Asynchronous functions are cut at their [await]: the outcome of the awaited
    network call is an argument of the model, and React state is passed
    explicitly.  Values the environment supplies ([uuidv4()], [new Date()]) are
    arguments as well. *)

From stdpp Require Import base option list strings gmap pretty.

Open Scope string_scope.
Open Scope list_scope.

(** ** JavaScript values the code relies on *)

Module Js.

(** A thrown value: an [Error] instance with its class name and message, or
    any other value (the code tests [err instanceof Error]). *)
Inductive Thrown : Type :=
| ErrorObj (name : string) (message : string)
| NonError.

(** [new Error(message)] *)
Definition Error (message : string) : Thrown := ErrorObj "Error" message.

(** How a call completes: it returns or it throws (a promise resolves or rejects). *)
Inductive Completion (A : Type) : Type :=
| Return (a : A)
| Throw (e : Thrown).
Arguments Return {A} a.
Arguments Throw {A} e.

(** [err instanceof Error ? err.message : fallback] *)
Definition message_or (err : Thrown) (fallback : string) : string :=
  match err with
  | ErrorObj _ m => m
  | NonError => fallback
  end.

(** Truthiness of a [string | null | undefined] value. *)
Definition truthy (v : option string) : bool :=
  match v with
  | Some s => negb (String.eqb s EmptyString)
  | None => false
  end.

(** [v || fallback] for an optional string [v]. *)
Definition or_else (v : option string) (fallback : string) : string :=
  match v with
  | Some s => if String.eqb s EmptyString then fallback else s
  | None => fallback
  end.

(** What an awaited [fetch] followed by [response.json()] can give.  The
    values the platform throws are carried, not chosen by the model; a body
    is read through the fields its TypeScript interface declares. *)
Inductive Fetched (A : Type) : Type :=
| Rejected (e : Thrown)
    (* fetch rejects: no response was obtained *)
| Unparsable (ok : bool) (e : Thrown)
    (* a response arrived; response.json() rejects with e *)
| Ok2xx (data : A)
    (* response.ok, body parsed as data *)
| NotOk (message : option string).
    (* !response.ok, body parsed; its message field *)
Arguments Rejected {A} e.
Arguments Unparsable {A} ok e.
Arguments Ok2xx {A} data.
Arguments NotOk {A} message.

(** No response at all, as opposed to a response with a failure status. *)
Definition no_response {A} (f : Fetched A) : bool :=
  match f with Rejected _ => true | _ => false end.

Definition non_2xx {A} (f : Fetched A) : bool :=
  match f with
  | NotOk _ | Unparsable false _ => true
  | _ => false
  end.

End Js.
Import Js.

(** ** localStorage *)

Module LocalStorage.

Definition getItem (key : string) (store : gmap string string) : option string :=
  store !! key.

Definition setItem (key value : string) (store : gmap string string)
  : gmap string string :=
  <[key := value]> store.

Definition removeItem (key : string) (store : gmap string string)
  : gmap string string :=
  delete key store.

End LocalStorage.

(** ** Session store: AuthProvider

    The repository has two copies of the provider, which differ in the URLs
    they fetch and in how [login] and [register] read the response;
    [validateToken], the mount effect and [logout] read the same in both. *)

Module Auth.

Record User : Type := { id : string; email : string; name : string }.

(** The provider's React state, the durable store and the console. *)
Record Session : Type := {
  user : option User;
  isAuthenticated : bool;
  localStorage : gmap string string;
  console : list string
}.

Definition setUser (u : option User) (s : Session) : Session :=
  {| user := u; isAuthenticated := isAuthenticated s;
     localStorage := localStorage s; console := console s |}.

Definition setIsAuthenticated (b : bool) (s : Session) : Session :=
  {| user := user s; isAuthenticated := b;
     localStorage := localStorage s; console := console s |}.

Definition removeToken (s : Session) : Session :=
  {| user := user s; isAuthenticated := isAuthenticated s;
     localStorage := LocalStorage.removeItem "auth_token" (localStorage s);
     console := console s |}.

Definition console_error (line : string) (s : Session) : Session :=
  {| user := user s; isAuthenticated := isAuthenticated s;
     localStorage := localStorage s; console := console s ++ [line] |}.

(** The provider as first rendered: [useState(null)], [useState(false)]. *)
Definition mount (store : gmap string string) : Session :=
  {| user := None; isAuthenticated := false;
     localStorage := store; console := [] |}.

(** [validateToken(token)], resumed with what the validate request gave.
    The whole body sits in try/catch, so the call always returns. *)
Definition validateToken (token : string) (resp : Fetched User) (s : Session)
  : Completion unit * Session :=
  match resp with
  | Ok2xx userData =>
      (Return tt, setIsAuthenticated true (setUser (Some userData) s))
  | NotOk _ | Unparsable false _ =>
      (Return tt, removeToken s)
  | Unparsable true _ | Rejected _ =>
      (Return tt, removeToken (console_error "Token validation failed:" s))
  end.

(** The mount effect: validate only when a token is stored. *)
Definition startup (resp : Fetched User) (s : Session)
  : Completion unit * Session :=
  match LocalStorage.getItem "auth_token" (localStorage s) with
  | Some token =>
      if truthy (Some token) then validateToken token resp s
      else (Return tt, s)
  | None => (Return tt, s)
  end.

Definition logout (s : Session) : Completion unit * Session :=
  (Return tt, setIsAuthenticated false (setUser None (removeToken s))).

End Auth.

(** ** Job client: the useAnimation hook *)

Module Animation.

Record Animation : Type := {
  _id : string;
  user_id : string;
  prompt : string;
  status : string;
  video_path : option string;
  error : option string;
  created_at : string;
  updated_at : string
}.

End Animation.

Module UseAnimation.

(** The hook's React state. *)
Record Hook : Type := {
  animations : list Animation.Animation;
  loading : bool;
  error : option string
}.

Definition setAnimations (l : list Animation.Animation) (h : Hook) : Hook :=
  {| animations := l; loading := loading h; error := error h |}.

Definition setLoading (b : bool) (h : Hook) : Hook :=
  {| animations := animations h; loading := b; error := error h |}.

Definition setError (e : option string) (h : Hook) : Hook :=
  {| animations := animations h; loading := loading h; error := e |}.

Definition getToken (store : gmap string string) : Completion string :=
  match LocalStorage.getItem "auth_token" store with
  | Some token =>
      if truthy (Some token) then Return token
      else Throw (Error "Not authenticated")
  | None => Throw (Error "Not authenticated")
  end.

(** The token is stored and non-empty, so that [getToken] returns it. *)
Definition token_stored (store : gmap string string) : bool :=
  truthy (LocalStorage.getItem "auth_token" store).

(** The body every try block shares: read the token, fetch, throw on a
    non-2xx response with the body's message or the fallback, parse. *)
Definition request {A : Type} (store : gmap string string)
    (resp : Fetched A) (fallback : string) : Completion A :=
  match getToken store with
  | Throw e => Throw e
  | Return _ =>
      match resp with
      | Rejected e => Throw e
      | Unparsable _ e => Throw e
      | NotOk m => Throw (Error (or_else m fallback))
      | Ok2xx data => Return data
      end
  end.

(** [generateAnimation(prompt, quality)]; the success body is [animation_id]. *)
Definition generateAnimation (isAuthenticated : bool)
    (store : gmap string string) (resp : Fetched string) (h : Hook)
  : Completion string * Hook :=
  if negb isAuthenticated then (Throw (Error "Not authenticated"), h)
  else
    let h1 := setError None (setLoading true h) in
    match request store resp "Failed to generate animation" with
    | Return animation_id => (Return animation_id, setLoading false h1)
    | Throw err =>
        (Throw err,
         setLoading false
           (setError (Some (message_or err "Failed to generate animation")) h1))
    end.

(** [checkStatus(animationId)] *)
Definition checkStatus (isAuthenticated : bool)
    (store : gmap string string) (resp : Fetched Animation.Animation) (h : Hook)
  : Completion Animation.Animation * Hook :=
  if negb isAuthenticated then (Throw (Error "Not authenticated"), h)
  else
    match request store resp "Failed to check animation status" with
    | Return data => (Return data, h)
    | Throw err =>
        (Throw err,
         setError (Some (message_or err "Failed to check animation status")) h)
    end.

(** [listAnimations(limit, skip)]; the success body is [animations].  The
    catch block records the message and does not rethrow. *)
Definition listAnimations (isAuthenticated : bool)
    (store : gmap string string) (resp : Fetched (list Animation.Animation))
    (h : Hook)
  : Completion unit * Hook :=
  if negb isAuthenticated then (Throw (Error "Not authenticated"), h)
  else
    let h1 := setError None (setLoading true h) in
    match request store resp "Failed to list animations" with
    | Return animations => (Return tt, setLoading false (setAnimations animations h1))
    | Throw err =>
        (Return tt,
         setLoading false
           (setError (Some (message_or err "Failed to list animations")) h1))
    end.

(** [deleteAnimation(animationId)]: the body is parsed only when the
    response is not ok. *)
Definition deleteAnimation (isAuthenticated : bool)
    (store : gmap string string) (animationId : string)
    (resp : Fetched unit) (h : Hook)
  : Completion unit * Hook :=
  if negb isAuthenticated then (Throw (Error "Not authenticated"), h)
  else
    let h1 := setError None (setLoading true h) in
    let body : Completion unit :=
      match getToken store with
      | Throw e => Throw e
      | Return _ =>
          match resp with
          | Rejected e => Throw e
          | Unparsable false e => Throw e
          | NotOk m => Throw (Error (or_else m "Failed to delete animation"))
          | Unparsable true _ | Ok2xx _ => Return tt
          end
      end in
    match body with
    | Return _ =>
        (Return tt,
         setLoading false
           (setAnimations
              (filter (fun a => Animation._id a <> animationId) (animations h1)) h1))
    | Throw err =>
        (Throw err,
         setLoading false
           (setError (Some (message_or err "Failed to delete animation")) h1))
    end.

(** [getAnimation(animationId)] *)
Definition getAnimation (isAuthenticated : bool)
    (store : gmap string string) (resp : Fetched Animation.Animation) (h : Hook)
  : Completion Animation.Animation * Hook :=
  if negb isAuthenticated then (Throw (Error "Not authenticated"), h)
  else
    match request store resp "Failed to get animation" with
    | Return data => (Return data, h)
    | Throw err =>
        (Throw err,
         setError (Some (message_or err "Failed to get animation")) h)
    end.

End UseAnimation.

(** ** Chat service *)

Module ChatService.

Inductive Role : Type := user | assistant.

Inductive Status : Type := pending | generating | completed | error.

Record ChatMessage : Type := {
  id : string;
  role : Role;
  content : string;
  timestamp : nat;
  status : option Status;
  animationUrl : option string
}.

Record GenerateAnimationResponse : Type := {
  message : string;
  response_animationUrl : option string;
  response_error : option string
}.

(** [sendMessage(message, token)]: the body is parsed before the status is
    looked at; every error is logged and rethrown as it is. *)
Definition sendMessage (message : string) (token : string)
    (resp : Fetched GenerateAnimationResponse)
  : Completion GenerateAnimationResponse :=
  match resp with
  | Rejected e => Throw e
  | Unparsable _ e => Throw e
  | NotOk m => Throw (Error (or_else m "Failed to generate animation"))
  | Ok2xx data => Return data
  end.

(** [getChatHistory(token)]; the success body is [messages]. *)
Definition getChatHistory (token : string) (resp : Fetched (list ChatMessage))
  : Completion (list ChatMessage) :=
  match resp with
  | Rejected e => Throw e
  | Unparsable _ e => Throw e
  | NotOk m => Throw (Error (or_else m "Failed to fetch chat history"))
  | Ok2xx messages => Return messages
  end.

End ChatService.

(** ** Chat orchestrator: ChatProvider *)

Module Chat.
Import ChatService.

(** The provider's React state. *)
Record State : Type := {
  messages : list ChatMessage;
  isLoading : bool
}.

Definition setMessages (f : list ChatMessage -> list ChatMessage) (c : State)
  : State :=
  {| messages := f (messages c); isLoading := isLoading c |}.

Definition setIsLoading (b : bool) (c : State) : State :=
  {| messages := messages c; isLoading := b |}.

(** [{ ...msg, status: s }] *)
Definition with_status (s : Status) (msg : ChatMessage) : ChatMessage :=
  {| id := id msg; role := role msg; content := content msg;
     timestamp := timestamp msg; status := Some s;
     animationUrl := animationUrl msg |}.

(** [prev.map(msg => msg.id === userMessageId ? { ...msg, status: s } : msg)] *)
Definition mark (userMessageId : string) (s : Status)
    (prev : list ChatMessage) : list ChatMessage :=
  map (fun msg =>
         if String.eqb (id msg) userMessageId then with_status s msg else msg)
      prev.

(** What [sendMessage] holds on to across its [await]. *)
Record Pending : Type := {
  userMessageId : string;
  sent_content : string;
  sent_token : string
}.

(** The entry [sendMessage] makes for the user's message. *)
Definition userMessage (content uuid : string) (now : nat) : ChatMessage :=
  {| id := uuid; role := user; content := content; timestamp := now;
     status := Some pending; animationUrl := None |}.

(** The entry it makes for the assistant's answer. *)
Definition assistantMessage (response : GenerateAnimationResponse)
    (uuid : string) (now : nat) : ChatMessage :=
  {| id := uuid; role := assistant; content := message response;
     timestamp := now; status := Some completed;
     animationUrl := response_animationUrl response |}.

(** The entry it makes when the request failed. *)
Definition errorMessage (uuid : string) (now : nat) : ChatMessage :=
  {| id := uuid; role := assistant;
     content := "Sorry, I encountered an error while generating the animation. Please try again.";
     timestamp := now; status := Some error;
     animationUrl := None |}.

(** Both guards of [sendMessage] pass: [isAuthenticated && user], and a
    non-empty token under the storage key. *)
Definition authenticated (auth : Auth.Session) : bool :=
  Auth.isAuthenticated auth
  && bool_decide (is_Some (Auth.user auth))
  && truthy (LocalStorage.getItem "auth_token" (Auth.localStorage auth)).

(** [sendMessage(content)] up to the [await]: the two guards, then the
    optimistic user entry.  [uuid] and [now] are [uuidv4()] and [new Date()]. *)
Definition sendMessage_begin (auth : Auth.Session) (content : string)
    (uuid : string) (now : nat) (c : State)
  : Completion Pending * State :=
  if negb (Auth.isAuthenticated auth) || negb (bool_decide (is_Some (Auth.user auth)))
  then (Throw (Error "Must be authenticated to send messages"), c)
  else
    match LocalStorage.getItem "auth_token" (Auth.localStorage auth) with
    | None => (Throw (Error "No authentication token found"), c)
    | Some token =>
        if negb (truthy (Some token))
        then (Throw (Error "No authentication token found"), c)
        else
          let userMessage := userMessage content uuid now in
          (Return {| userMessageId := id userMessage; sent_content := content;
                     sent_token := token |},
           setIsLoading true (setMessages (fun prev => prev ++ [userMessage]) c))
    end.

(** [sendMessage] after the [await]: the try continuation, the catch block
    and the finally block, on whatever the transcript is by then. *)
Definition sendMessage_settle (p : Pending)
    (outcome : Completion GenerateAnimationResponse)
    (uuid : string) (now : nat) (c : State) : State :=
  match outcome with
  | Return response =>
      let assistantMessage := assistantMessage response uuid now in
      setIsLoading false
        (setMessages
           (fun prev => mark (userMessageId p) completed prev ++ [assistantMessage])
           c)
  | Throw _ =>
      let errorMessage := errorMessage uuid now in
      setIsLoading false
        (setMessages (fun prev => prev ++ [errorMessage])
           (setMessages (mark (userMessageId p) error) c))
  end.

(** A whole [sendMessage] call when nothing else touches the transcript
    while the request is out. *)
Definition sendMessage (auth : Auth.Session) (content : string)
    (uuid1 : string) (now1 : nat)
    (resp : Fetched GenerateAnimationResponse)
    (uuid2 : string) (now2 : nat) (c : State)
  : Completion unit * State :=
  match sendMessage_begin auth content uuid1 now1 c with
  | (Throw e, c') => (Throw e, c')
  | (Return p, c') =>
      (Return tt,
       sendMessage_settle p
         (ChatService.sendMessage (sent_content p) (sent_token p) resp)
         uuid2 now2 c')
  end.

Definition clearMessages (c : State) : State :=
  setMessages (fun _ => []) c.

(** [loadChatHistory(token)] after its [await]. *)
Definition loadChatHistory (token : string)
    (resp : Fetched (list ChatMessage)) (c : State) : State :=
  match getChatHistory token resp with
  | Return history => setMessages (fun _ => history) c
  | Throw _ => c
  end.

(** The steps by which the provider writes the transcript. *)
Inductive Op : Type :=
| OpBegin (auth : Auth.Session) (content : string) (uuid : string) (now : nat)
| OpSettle (p : Pending) (outcome : Completion GenerateAnimationResponse)
    (uuid : string) (now : nat)
| OpClear
| OpHistory (token : string) (resp : Fetched (list ChatMessage)).

Definition apply (o : Op) (c : State) : State :=
  match o with
  | OpBegin auth content uuid now => snd (sendMessage_begin auth content uuid now c)
  | OpSettle p outcome uuid now => sendMessage_settle p outcome uuid now c
  | OpClear => clearMessages c
  | OpHistory token resp => loadChatHistory token resp c
  end.

Definition run (ops : list Op) (c : State) : State :=
  foldl (fun c o => apply o c) c ops.

(** The steps of [sendMessage], and a history load that failed. *)
Definition keeps_transcript (o : Op) : bool :=
  match o with
  | OpBegin _ _ _ _ | OpSettle _ _ _ _ => true
  | OpClear => false
  | OpHistory _ (Ok2xx _) => false
  | OpHistory _ _ => true
  end.

(** Two entries that differ at most in their status field. *)
Definition same_entry (m1 m2 : ChatMessage) : Prop :=
  id m1 = id m2 /\ role m1 = role m2 /\ content m1 = content m2
  /\ timestamp m1 = timestamp m2 /\ animationUrl m1 = animationUrl m2.

(** [new] keeps every entry of [old], in order and in place, up to status,
    and may have more entries after them. *)
Definition extends (old new : list ChatMessage) : Prop :=
  exists kept added, new = kept ++ added /\ Forall2 same_entry old kept.

End Chat.

(** ** Job poller: the polling effect of AnimationGenerator *)

Module ComponentStatus.

Inductive t : Type := idle | generating | completed | error.

#[global] Instance eq_dec : EqDecision t.
Proof. solve_decision. Defined.

End ComponentStatus.

Module Generator.

(** The component's React state ([currentAnimationId], [status], [error]),
    whether the optional prop [onAnimationComplete] is passed, and what the
    polling effect holds: the values its closure captured, whether its
    interval is live, and the [pollStatus] calls suspended at
    [await checkStatus(...)] (each with the id it captured).  Two logs record
    the calls made to the outside: [checkStatus(id)] and
    [onAnimationComplete(id)]. *)
Record Component : Type := {
  currentAnimationId : option string;
  status : ComponentStatus.t;
  error : option string;
  onAnimationComplete : bool;
  mounted : bool;
  closure : option string * ComponentStatus.t;
  intervalId : bool;
  awaiting : list string;
  statusCalls : list string;
  completions : list string
}.

Definition mapAnimationStatus (animationStatus : string) : ComponentStatus.t :=
  if String.eqb animationStatus "pending" then ComponentStatus.generating
  else if String.eqb animationStatus "generating" then ComponentStatus.generating
  else if String.eqb animationStatus "completed" then ComponentStatus.completed
  else if String.eqb animationStatus "error" then ComponentStatus.error
  else ComponentStatus.idle.

(** React state setters: a state update of an unmounted component is dropped. *)
Definition setStatus (v : ComponentStatus.t) (c : Component) : Component :=
  if mounted c then
    {| currentAnimationId := currentAnimationId c; status := v;
       error := error c; onAnimationComplete := onAnimationComplete c;
       mounted := mounted c; closure := closure c;
       intervalId := intervalId c; awaiting := awaiting c;
       statusCalls := statusCalls c; completions := completions c |}
  else c.

Definition setError (v : option string) (c : Component) : Component :=
  if mounted c then
    {| currentAnimationId := currentAnimationId c; status := status c;
       error := v; onAnimationComplete := onAnimationComplete c;
       mounted := mounted c; closure := closure c;
       intervalId := intervalId c; awaiting := awaiting c;
       statusCalls := statusCalls c; completions := completions c |}
  else c.

Definition setCurrentAnimationId (v : option string) (c : Component)
  : Component :=
  if mounted c then
    {| currentAnimationId := v; status := status c;
       error := error c; onAnimationComplete := onAnimationComplete c;
       mounted := mounted c; closure := closure c;
       intervalId := intervalId c; awaiting := awaiting c;
       statusCalls := statusCalls c; completions := completions c |}
  else c.

(** [onAnimationComplete?.(animationId)]: a call to the parent's callback,
    made whether or not this component is still mounted. *)
Definition call_onAnimationComplete (animationId : string) (c : Component)
  : Component :=
  if onAnimationComplete c then
    {| currentAnimationId := currentAnimationId c; status := status c;
       error := error c; onAnimationComplete := onAnimationComplete c;
       mounted := mounted c; closure := closure c;
       intervalId := intervalId c; awaiting := awaiting c;
       statusCalls := statusCalls c;
       completions := completions c ++ [animationId] |}
  else c.

(** The effect's cleanup: [if (intervalId) clearInterval(intervalId)]. *)
Definition cleanup (c : Component) : Component :=
  {| currentAnimationId := currentAnimationId c; status := status c;
     error := error c; onAnimationComplete := onAnimationComplete c;
     mounted := mounted c; closure := closure c;
     intervalId := false; awaiting := awaiting c;
     statusCalls := statusCalls c; completions := completions c |}.

(** The effect's body: capture the current state, and set the interval
    only when [status === 'generating']. *)
Definition effect (c : Component) : Component :=
  {| currentAnimationId := currentAnimationId c; status := status c;
     error := error c; onAnimationComplete := onAnimationComplete c;
     mounted := mounted c;
     closure := (currentAnimationId c, status c);
     intervalId := bool_decide (status c = ComponentStatus.generating);
     awaiting := awaiting c;
     statusCalls := statusCalls c; completions := completions c |}.

(** A React commit: when a dependency of the effect changed, its cleanup
    runs and then the effect again.  ([checkStatus] and the callback prop
    are taken to keep their identity, and the commit that follows a state
    update to come before the next timer callback.) *)
Definition render (c : Component) : Component :=
  if mounted c then
    if decide ((currentAnimationId c, status c) = closure c) then c
    else effect (cleanup c)
  else c.

(** The component leaves the tree: the cleanup runs, state is gone. *)
Definition unmount (c : Component) : Component :=
  let c := cleanup c in
  {| currentAnimationId := currentAnimationId c; status := status c;
     error := error c; onAnimationComplete := onAnimationComplete c;
     mounted := false; closure := closure c;
     intervalId := intervalId c; awaiting := awaiting c;
     statusCalls := statusCalls c; completions := completions c |}.

(** [pollStatus] up to its [await]: the guard on the captured values, then
    [checkStatus(currentAnimationId)] is called and awaited. *)
Definition pollStatus_begin (c : Component) : Component :=
  match closure c with
  | (Some animationId, ComponentStatus.generating) =>
      if truthy (Some animationId) then
        {| currentAnimationId := currentAnimationId c; status := status c;
           error := error c; onAnimationComplete := onAnimationComplete c;
           mounted := mounted c; closure := closure c;
           intervalId := intervalId c;
           awaiting := awaiting c ++ [animationId];
           statusCalls := statusCalls c ++ [animationId];
           completions := completions c |}
      else c
  | _ => c
  end.

(** [pollStatus] after its [await], for the call that captured
    [animationId]: the rest of the try block, or the catch block. *)
Definition pollStatus_resume (animationId : string)
    (result : Completion Animation.Animation) (c : Component) : Component :=
  match result with
  | Return animation =>
      let newStatus := mapAnimationStatus (Animation.status animation) in
      let c := setStatus newStatus c in
      match newStatus with
      | ComponentStatus.completed =>
          setCurrentAnimationId None (call_onAnimationComplete animationId c)
      | ComponentStatus.error =>
          setCurrentAnimationId None
            (setError
               (Some (or_else (Animation.error animation)
                        "Animation generation failed")) c)
      | _ => c
      end
  | Throw err =>
      setCurrentAnimationId None
        (setStatus ComponentStatus.error
           (setError (Some (message_or err "Failed to check animation status")) c))
  end.

(** What can happen to a component with no new submission: the interval
    fires, the [k]-th suspended status call settles, or the component is
    unmounted. *)
Inductive Step : Type :=
| Tick
| Settle (k : nat) (result : Completion Animation.Animation)
| Unmount.

Definition dequeue (k : nat) (c : Component) : Component :=
  {| currentAnimationId := currentAnimationId c; status := status c;
     error := error c; onAnimationComplete := onAnimationComplete c;
     mounted := mounted c; closure := closure c;
     intervalId := intervalId c;
     awaiting := delete k (awaiting c);
     statusCalls := statusCalls c; completions := completions c |}.

Definition step (s : Step) (c : Component) : Component :=
  match s with
  | Tick => if intervalId c then pollStatus_begin c else c
  | Settle k result =>
      match awaiting c !! k with
      | Some animationId =>
          render (pollStatus_resume animationId result (dequeue k c))
      | None => c
      end
  | Unmount => unmount c
  end.

Definition run (steps : list Step) (c : Component) : Component :=
  foldl (fun c s => step s c) c steps.

(** The component as first rendered: [useState(null)], [useState('idle')],
    [useState(null)], and the effect run once. *)
Definition initial (callback : bool) : Component :=
  effect
    {| currentAnimationId := None; status := ComponentStatus.idle;
       error := None; onAnimationComplete := callback;
       mounted := true;
       closure := (None, ComponentStatus.idle);
       intervalId := false; awaiting := [];
       statusCalls := []; completions := [] |}.

(** [handleSubmit] up to its [await]; [blank] is [!prompt.trim()]. *)
Definition handleSubmit_begin (blank : bool) (c : Component) : Component :=
  if blank then c
  else render (setStatus ComponentStatus.generating (setError None c)).

(** [handleSubmit] after [await generateAnimation(prompt, quality)]. *)
Definition handleSubmit_resume (result : Completion string) (c : Component)
  : Component :=
  match result with
  | Return animationId => render (setCurrentAnimationId (Some animationId) c)
  | Throw err =>
      render
        (setStatus ComponentStatus.error
           (setError (Some (message_or err "Failed to generate animation")) c))
  end.

(** The component once a submitted prompt has been given its job id. *)
Definition started (animationId : string) (callback : bool) : Component :=
  handleSubmit_resume (Return animationId)
    (handleSubmit_begin false (initial callback)).

(** A component in the middle of polling job [animationId]. *)
Definition polling (animationId : string) (c : Component) : Prop :=
  mounted c = true
  /\ truthy (Some animationId) = true
  /\ currentAnimationId c = Some animationId
  /\ status c = ComponentStatus.generating
  /\ closure c = (Some animationId, ComponentStatus.generating)
  /\ intervalId c = true.

End Generator.

(** ** Session store: login and register

    [Provider] is the copy of the provider that goes through the
    application's own routes; [DirectProvider] is the copy that talks to the
    backend and reads the response as text before parsing it. *)

Module Provider.

(** The body of a successful login or register response. *)
Record Credentials : Type := { token : string; user : Auth.User }.

Definition storeToken (value : string) (s : Auth.Session) : Auth.Session :=
  {| Auth.user := Auth.user s; Auth.isAuthenticated := Auth.isAuthenticated s;
     Auth.localStorage :=
       LocalStorage.setItem "auth_token" value (Auth.localStorage s);
     Auth.console := Auth.console s |}.

(** [login(email, password)], resumed with what the request gave.  Every
    error passes through the catch block, which logs it and rethrows it. *)
Definition login (email password : string) (resp : Fetched Credentials)
    (s : Auth.Session) : Completion unit * Auth.Session :=
  match resp with
  | Ok2xx data =>
      (Return tt,
       Auth.setIsAuthenticated true
         (Auth.setUser (Some (user data)) (storeToken (token data) s)))
  | NotOk _ | Unparsable false _ =>
      (Throw (Error "Login failed"), Auth.console_error "Login error:" s)
  | Unparsable true e | Rejected e =>
      (Throw e, Auth.console_error "Login error:" s)
  end.

(** [register(email, password, name)] *)
Definition register (email password name : string) (resp : Fetched Credentials)
    (s : Auth.Session) : Completion unit * Auth.Session :=
  match resp with
  | Ok2xx data =>
      (Return tt,
       Auth.setIsAuthenticated true
         (Auth.setUser (Some (user data)) (storeToken (token data) s)))
  | NotOk _ | Unparsable false _ =>
      (Throw (Error "Registration failed"),
       Auth.console_error "Registration error:" s)
  | Unparsable true e | Rejected e =>
      (Throw e, Auth.console_error "Registration error:" s)
  end.

End Provider.

Module DirectProvider.

(** The body of a successful login response, as this copy reads it. *)
Record TokenData : Type := { access_token : string; user : Auth.User }.

(** What [fetch] followed by [response.text()] and [JSON.parse] can give:
    no response; a response whose text cannot be read; an ok response whose
    text parses to [data] or does not parse; a response that is not ok, with
    its status line and the [message] field of its text when that parses. *)
Inductive TextResponse : Type :=
| NoResponse (e : Thrown)
| NoText (e : Thrown)
| OkText (parsed : option TokenData)
| FailText (status : nat) (statusText : string) (parsed : option (option string)).

Definition console_log (line : string) (s : Auth.Session) : Auth.Session :=
  Auth.console_error line s.

(** [login(email, password)].  In the branch for a response that is not ok,
    the [Error] thrown inside the try block is caught by the catch block
    right after it, which throws the one built from the status line. *)
Definition login (email password : string) (resp : TextResponse)
    (s : Auth.Session) : Completion unit * Auth.Session :=
  let s := console_log "Attempting login with:" s in
  match resp with
  | NoResponse e => (Throw e, Auth.console_error "Login error:" s)
  | NoText e =>
      (Throw e,
       Auth.console_error "Login error:"
         (console_log "Login response status:" s))
  | OkText parsed =>
      let s := console_log "Raw response:" (console_log "Login response status:" s) in
      match parsed with
      | Some data =>
          (Return tt,
           Auth.setIsAuthenticated true
             (Auth.setUser (Some (user data))
                (Provider.storeToken (access_token data) s)))
      | None =>
          (Throw (Error "Invalid server response format"),
           Auth.console_error "Login error:"
             (Auth.console_error "Failed to parse successful response:" s))
      end
  | FailText status statusText _ =>
      let s := console_log "Raw response:" (console_log "Login response status:" s) in
      (Throw (Error ("Login failed: " +:+ pretty status +:+ " " +:+ statusText)),
       Auth.console_error "Login error:"
         (Auth.console_error "Failed to parse error response:" s))
  end.

(** [register(email, password, name)] *)
Definition register (email password name : string) (resp : TextResponse)
    (s : Auth.Session) : Completion unit * Auth.Session :=
  let s := console_log "Attempting registration with:" s in
  match resp with
  | NoResponse e => (Throw e, Auth.console_error "Registration error:" s)
  | NoText e =>
      (Throw e,
       Auth.console_error "Registration error:"
         (console_log "Registration response status:" s))
  | OkText parsed =>
      let s :=
        console_log "Raw response:"
          (console_log "Registration response status:" s) in
      match parsed with
      | Some data =>
          (Return tt,
           Auth.setIsAuthenticated true
             (Auth.setUser (Some (user data))
                (Provider.storeToken (access_token data) s)))
      | None =>
          (Throw (Error "Invalid server response format"),
           Auth.console_error "Registration error:"
             (Auth.console_error "Failed to parse successful response:" s))
      end
  | FailText status statusText _ =>
      let s :=
        console_log "Raw response:"
          (console_log "Registration response status:" s) in
      (Throw (Error ("Registration failed: " +:+ pretty status +:+ " " +:+ statusText)),
       Auth.console_error "Registration error:"
         (Auth.console_error "Failed to parse error response:" s))
  end.

End DirectProvider.

(** ** The sign-in dialog: AuthModal *)

Module LoginData.
Record t : Type := { email : string; password : string }.
Definition empty : t := {| email := EmptyString; password := EmptyString |}.
End LoginData.

Module RegisterData.
Record t : Type := {
  email : string;
  password : string;
  confirmPassword : string;
  name : string
}.
Definition empty : t :=
  {| email := EmptyString; password := EmptyString;
     confirmPassword := EmptyString; name := EmptyString |}.
End RegisterData.

Module AuthModal.

(** The dialog's state the two submit handlers touch, and the calls they
    make to the parent's [onOpenChange].  A JavaScript string is taken as
    the sequence of its code units. *)
Record Modal : Type := {
  isLoading : bool;
  error : string;
  loginData : LoginData.t;
  registerData : RegisterData.t;
  onOpenChange : list bool
}.

Definition setIsLoading (b : bool) (m : Modal) : Modal :=
  {| isLoading := b; error := error m; loginData := loginData m;
     registerData := registerData m; onOpenChange := onOpenChange m |}.

Definition setError (e : string) (m : Modal) : Modal :=
  {| isLoading := isLoading m; error := e; loginData := loginData m;
     registerData := registerData m; onOpenChange := onOpenChange m |}.

Definition setLoginData (d : LoginData.t) (m : Modal) : Modal :=
  {| isLoading := isLoading m; error := error m; loginData := d;
     registerData := registerData m; onOpenChange := onOpenChange m |}.

Definition setRegisterData (d : RegisterData.t) (m : Modal) : Modal :=
  {| isLoading := isLoading m; error := error m; loginData := loginData m;
     registerData := d; onOpenChange := onOpenChange m |}.

Definition call_onOpenChange (open : bool) (m : Modal) : Modal :=
  {| isLoading := isLoading m; error := error m; loginData := loginData m;
     registerData := registerData m;
     onOpenChange := onOpenChange m ++ [open] |}.

(** [handleLogin] up to [await login(...)]: the state, and the arguments of
    the call. *)
Definition handleLogin_begin (m : Modal) : (string * string) * Modal :=
  ((LoginData.email (loginData m), LoginData.password (loginData m)),
   setError EmptyString (setIsLoading true m)).

(** [handleLogin] after the [await]. *)
Definition handleLogin_resume (outcome : Completion unit) (m : Modal) : Modal :=
  match outcome with
  | Return _ =>
      setIsLoading false
        (setLoginData LoginData.empty (call_onOpenChange false m))
  | Throw _ =>
      setIsLoading false
        (setError "Invalid email or password. Please try again." m)
  end.

(** [handleRegister] up to [await register(...)]: [None] when one of the
    two checks returned early. *)
Definition handleRegister_begin (m : Modal)
  : option (string * string * string) * Modal :=
  let m := setError EmptyString m in
  let data := registerData m in
  if negb (String.eqb (RegisterData.password data)
             (RegisterData.confirmPassword data))
  then (None, setError "Passwords do not match" m)
  else if Nat.ltb (String.length (RegisterData.password data)) 8
  then (None, setError "Password must be at least 8 characters long" m)
  else
    (Some (RegisterData.email data, RegisterData.password data,
           RegisterData.name data),
     setIsLoading true m).

(** [handleRegister] after the [await]. *)
Definition handleRegister_resume (outcome : Completion unit) (m : Modal)
  : Modal :=
  match outcome with
  | Return _ =>
      setIsLoading false
        (setRegisterData RegisterData.empty (call_onOpenChange false m))
  | Throw _ =>
      setIsLoading false
        (setError "Registration failed. Please try again." m)
  end.

(** A whole submission of the register form against [Provider.register]. *)
Definition handleRegister (resp : Fetched Provider.Credentials)
    (m : Modal) (s : Auth.Session) : Modal * Auth.Session :=
  match handleRegister_begin m with
  | (None, m') => (m', s)
  | (Some (email, password, name), m') =>
      let '(outcome, s') := Provider.register email password name resp s in
      (handleRegister_resume outcome m', s')
  end.

(** A whole submission of the login form against [Provider.login]. *)
Definition handleLogin (resp : Fetched Provider.Credentials)
    (m : Modal) (s : Auth.Session) : Modal * Auth.Session :=
  let '((email, password), m') := handleLogin_begin m in
  let '(outcome, s') := Provider.login email password resp s in
  (handleLogin_resume outcome m', s').

End AuthModal.

(** ** The list of animations: AnimationList *)

Module AnimationList.

Definition ITEMS_PER_PAGE : Z := 5.

(** The query [listAnimations(limit, skip)] puts in the URL it fetches. *)
Record Query : Type := { limit : Z; skip : Z }.

(** The call the component makes for a page, in its effect and after a
    delete: [listAnimations((page - 1) * ITEMS_PER_PAGE, ITEMS_PER_PAGE)].
    The first argument of [listAnimations] is its [limit], the second its
    [skip]. *)
Definition listAnimations_call (page : Z) : Query :=
  {| limit := (page - 1) * ITEMS_PER_PAGE; skip := ITEMS_PER_PAGE |}.

(** The URL of that query. *)
Definition url (q : Query) : string :=
  "http://localhost:5000/api/animations/list?limit=" +:+ pretty (limit q)
  +:+ "&skip=" +:+ pretty (skip q).

(** The two page buttons: [setPage(p => Math.max(1, p - 1))] and
    [setPage(p => p + 1)]. *)
Inductive Click : Type := Previous | Next.

Definition click (b : Click) (page : Z) : Z :=
  match b with
  | Previous => Z.max 1 (page - 1)
  | Next => page + 1
  end.

Definition clicks (bs : list Click) (page : Z) : Z :=
  foldl (fun page b => click b page) page bs.

(** [handleDelete(animationId)]: [confirmed] is what [window.confirm]
    answered; the list is asked for again only after a delete that
    succeeded, and a failed delete is logged, not rethrown. *)
Definition handleDelete (confirmed : bool) (isAuthenticated : bool)
    (store : gmap string string) (animationId : string)
    (deleted : Fetched unit) (listed : Fetched (list Animation.Animation))
    (h : UseAnimation.Hook) (console : list string)
  : UseAnimation.Hook * list string :=
  if confirmed then
    match UseAnimation.deleteAnimation isAuthenticated store animationId deleted h with
    | (Return _, h') =>
        (snd (UseAnimation.listAnimations isAuthenticated store listed h'), console)
    | (Throw _, h') => (h', console ++ ["Failed to delete animation:"])
    end
  else (h, console).

End AnimationList.

(** ** The player: AnimationPlayer *)

Module AnimationPlayer.

(** The state the load effect writes. *)
Record Player : Type := {
  videoUrl : option string;
  error : option string
}.

Definition setVideoUrl (v : option string) (p : Player) : Player :=
  {| videoUrl := v; error := error p |}.

Definition setError (v : option string) (p : Player) : Player :=
  {| videoUrl := videoUrl p; error := v |}.

(** [loadAnimation] after [await getAnimation(animationId)]. *)
Definition loadAnimation (result : Completion Animation.Animation) (p : Player)
  : Player :=
  match result with
  | Return animation =>
      if String.eqb (Animation.status animation) "completed"
         && truthy (Animation.video_path animation)
      then
        setVideoUrl
          (Some ("http://localhost:5000"
                 +:+ default EmptyString (Animation.video_path animation))) p
      else if String.eqb (Animation.status animation) "error"
      then
        setError
          (Some (or_else (Animation.error animation) "Animation generation failed")) p
      else setError (Some "Animation is not ready yet") p
  | Throw err => setError (Some (message_or err "Failed to load animation")) p
  end.

(** What the component renders: the tests are made in this order. *)
Inductive View : Type :=
| Spinner
| ErrorCard (text : string)
| NoVideo
| Video (src : string).

Definition view (loading : bool) (p : Player) : View :=
  if loading then Spinner
  else if truthy (error p) then ErrorCard (default EmptyString (error p))
  else if negb (truthy (videoUrl p)) then NoVideo
  else Video (default EmptyString (videoUrl p)).

(** The component as first rendered. *)
Definition initial : Player := {| videoUrl := None; error := None |}.

End AnimationPlayer.

(** ** The generator with its form *)

Module GeneratorForm.
Import Generator.

(** What can happen to the generator: the form is submitted ([blank] is
    [!prompt.trim()]), a pending [generateAnimation] call settles, or one of
    the polling steps. *)
Inductive Action : Type :=
| Submit (blank : bool)
| Generated (result : Completion string)
| Poll (s : Step).

Definition act (a : Action) (c : Component) : Component :=
  match a with
  | Submit blank => handleSubmit_begin blank c
  | Generated result => handleSubmit_resume result c
  | Poll s => step s c
  end.

Definition acts (l : list Action) (c : Component) : Component :=
  foldl (fun c a => act a c) c l.

(** One round of polling: the interval fires and the status call it makes
    is answered with [answer]. *)
Definition round (answer : Animation.Animation) (c : Component) : Component :=
  step (Settle 0 (Return answer)) (step Tick c).

End GeneratorForm.

(** ** Chat: how a request ends *)

Module ChatOutcome.
Import ChatService Chat.

(** The status [sendMessage] gives the user entry once the request settled. *)
Definition settled (outcome : Completion GenerateAnimationResponse) : Status :=
  match outcome with
  | Return _ => completed
  | Throw _ => error
  end.

(** The entry [sendMessage] appends once the request settled. *)
Definition answer (outcome : Completion GenerateAnimationResponse)
    (uuid : string) (now : nat) : ChatMessage :=
  match outcome with
  | Return response => assistantMessage response uuid now
  | Throw _ => errorMessage uuid now
  end.

End ChatOutcome.

(** ** The application's own auth routes

    The route handlers for login, register and validate.  What [jsonwebtoken]
    and [bcryptjs] compute is not part of the repository: [jwt.sign] and
    [jwt.verify] are parameters ([verify] gives [None] where the library
    throws), and the answers of [bcrypt] are inputs. *)

Module Routes.

(** The claims the routes sign into a token. *)
Record Payload : Type := { userId : string; email : string }.

(** The JSON bodies the routes send. *)
Inductive Body : Type :=
| ErrorBody (error : string)
| UserBody (user : Auth.User)
| SessionBody (token : string) (user : Auth.User).

(** [NextResponse.json(body, { status })] *)
Record Response : Type := { status : nat; body : Body }.

(** [process.env.JWT_SECRET || "your-secret-key"] *)
Definition secret (JWT_SECRET : option string) : string :=
  or_else JWT_SECRET "your-secret-key".

(** [Some rest] when [s] is [pattern] followed by [rest]. *)
Fixpoint strip (pattern s : string) : option string :=
  match pattern, s with
  | EmptyString, _ => Some s
  | String a pattern', String b s' =>
      if Ascii.eqb a b then strip pattern' s' else None
  | String _ _, EmptyString => None
  end.

(** [s.replace(pattern, "")] for a string pattern: the first occurrence,
    from the left, is taken out. *)
Fixpoint remove_first (pattern s : string) : string :=
  match strip pattern s with
  | Some rest => rest
  | None =>
      match s with
      | EmptyString => EmptyString
      | String a s' => String a (remove_first pattern s')
      end
  end.

Section Jwt.

Variable sign : Payload -> string -> string.
Variable verify : string -> string -> option Payload.

(** The validate route: [GET], given what
    [request.headers.get('authorization')] returned: [None] when the header
    is absent, else its value, which the platform's [Headers] hands over
    without leading and trailing whitespace. *)
Definition GET (JWT_SECRET : option string) (authorization : option string)
  : Response :=
  let token := option_map (remove_first "Bearer ") authorization in
  if negb (truthy token)
  then {| status := 401; body := ErrorBody "No token provided" |}
  else
    match verify (default EmptyString token) (secret JWT_SECRET) with
    | Some decoded =>
        {| status := 200;
           body := UserBody {| Auth.id := userId decoded;
                               Auth.email := email decoded;
                               Auth.name := "Demo User" |} |}
    | None => {| status := 401; body := ErrorBody "Invalid token" |}
    end.

(** The login route: [POST].  [request] is the parsed body, [None] when
    [request.json()] rejects; [isValidPassword] is what [bcrypt.compare]
    answered, [None] when [bcrypt] threw. *)
Definition POST_login (JWT_SECRET : option string)
    (request : option (string * string)) (isValidPassword : option bool)
  : Response :=
  match request, isValidPassword with
  | Some (email, password), Some true =>
      {| status := 200;
         body :=
           SessionBody
             (sign {| userId := "1"; email := email |} (secret JWT_SECRET))
             {| Auth.id := "1"; Auth.email := email; Auth.name := "Demo User" |} |}
  | Some _, Some false =>
      {| status := 401; body := ErrorBody "Invalid credentials" |}
  | _, _ => {| status := 500; body := ErrorBody "Internal server error" |}
  end.

(** The register route: [POST].  [hashed] is what [bcrypt.hash] gave,
    [None] when it threw; [now] is [Date.now().toString()]. *)
Definition POST_register (JWT_SECRET : option string)
    (request : option (string * string * string)) (hashed : option string)
    (now : string) : Response :=
  match request, hashed with
  | Some (email, password, name), Some _ =>
      {| status := 200;
         body :=
           SessionBody
             (sign {| userId := now; email := email |} (secret JWT_SECRET))
             {| Auth.id := now; Auth.email := email; Auth.name := name |} |}
  | _, _ => {| status := 500; body := ErrorBody "Internal server error" |}
  end.

End Jwt.

(** The header the providers send with a token: [`Bearer ${token}`]. *)
Definition bearer (token : string) : string := "Bearer " +:+ token.

End Routes.

(** ** Sample values *)

Module Sample.

Definition alice : Auth.User :=
  {| Auth.id := "u-1"; Auth.email := "alice@example.org"; Auth.name := "Alice" |}.

(** A session after a successful login. *)
Definition signed_in : Auth.Session :=
  {| Auth.user := Some alice; Auth.isAuthenticated := true;
     Auth.localStorage := {[ "auth_token" := "tok" ]};
     Auth.console := [] |}.

Definition signed_out : Auth.Session := Auth.mount ∅.

Definition empty_chat : Chat.State :=
  {| Chat.messages := []; Chat.isLoading := false |}.

(** A transcript holding one user entry still pending. *)
Definition one_pending : Chat.State :=
  {| Chat.messages := [Chat.userMessage "Draw a circle" "m-1" 0];
     Chat.isLoading := true |}.

Definition reply : ChatService.GenerateAnimationResponse :=
  {| ChatService.message := "Here is your animation";
     ChatService.response_animationUrl := Some "/v/abc123.mp4";
     ChatService.response_error := None |}.

Definition empty_hook : UseAnimation.Hook :=
  {| UseAnimation.animations := []; UseAnimation.loading := false;
     UseAnimation.error := None |}.

(** The job "abc123" as the status endpoint reports it. *)
Definition job (status : string) (video_path error : option string)
  : Animation.Animation :=
  {| Animation._id := "abc123"; Animation.user_id := "u-1";
     Animation.prompt := "Draw a circle"; Animation.status := status;
     Animation.video_path := video_path; Animation.error := error;
     Animation.created_at := "2024-01-01T00:00:00Z";
     Animation.updated_at := "2024-01-01T00:00:05Z" |}.

End Sample.

(** * Properties *)

(** ** Session store *)

Lemma removeItem_absent (key : string) (store : gmap string string) :
  LocalStorage.getItem key (LocalStorage.removeItem key store) = None.
Proof.
  unfold LocalStorage.getItem, LocalStorage.removeItem.
  apply lookup_delete_eq.
Qed.

Lemma removeItem_twice (key : string) (store : gmap string string) :
  LocalStorage.removeItem key (LocalStorage.removeItem key store)
  = LocalStorage.removeItem key store.
Proof.
  unfold LocalStorage.removeItem. apply delete_id, lookup_delete_eq.
Qed.

(** Every path of [validateToken] other than the successful one removes the
    token and touches neither [user] nor [isAuthenticated]. *)
Lemma validateToken_failure (token : string) (resp : Fetched Auth.User)
    (s : Auth.Session) :
  (forall userData, resp <> Ok2xx userData) ->
  let result := Auth.validateToken token resp s in
  fst result = Return tt
  /\ Auth.localStorage (snd result)
     = LocalStorage.removeItem "auth_token" (Auth.localStorage s)
  /\ Auth.user (snd result) = Auth.user s
  /\ Auth.isAuthenticated (snd result) = Auth.isAuthenticated s
  /\ (Auth.console (snd result) = Auth.console s
      \/ Auth.console (snd result)
         = Auth.console s ++ ["Token validation failed:"]).
Proof.
  intros Hfail.
  destruct resp as [e | [|] e | userData | m]; cbn.
  - repeat split; auto.
  - repeat split; auto.
  - repeat split; auto.
  - exfalso. exact (Hfail userData eq_refl).
  - repeat split; auto.
Qed.

(** C7. At startup with a persisted token, when the validate request gets a
    non-2xx response or no response at all, [validateToken] returns normally,
    the token is removed from localStorage (nothing else in it changes), the
    session stays unauthenticated ([user] null, [isAuthenticated] false), and
    at most the one diagnostic line is logged. *)
Theorem validate_failure_clears_token
    (store : gmap string string) (token : string) (resp : Fetched Auth.User) :
  store !! "auth_token" = Some token ->
  truthy (Some token) = true ->
  no_response resp = true \/ non_2xx resp = true ->
  let result := Auth.startup resp (Auth.mount store) in
  fst result = Return tt
  /\ Auth.localStorage (snd result) = delete "auth_token" store
  /\ LocalStorage.getItem "auth_token" (Auth.localStorage (snd result)) = None
  /\ Auth.user (snd result) = None
  /\ Auth.isAuthenticated (snd result) = false
  /\ (Auth.console (snd result) = []
      \/ Auth.console (snd result) = ["Token validation failed:"]).
Proof.
  intros Hstored Htruthy Hfail result.
  assert (Hne : forall userData, resp <> Ok2xx userData).
  { intros userData ->. destruct Hfail as [H | H]; discriminate H. }
  assert (Hrun : Auth.startup resp (Auth.mount store)
                 = Auth.validateToken token resp (Auth.mount store)).
  { unfold Auth.startup, LocalStorage.getItem. cbn [Auth.localStorage Auth.mount].
    rewrite Hstored, Htruthy. reflexivity. }
  subst result. rewrite Hrun.
  destruct (validateToken_failure token resp (Auth.mount store) Hne)
    as (Hret & Hstore & Huser & Hauth & Hlog).
  split; [exact Hret|].
  split; [exact Hstore|].
  split; [rewrite Hstore; apply removeItem_absent|].
  split; [exact Huser|].
  split; [exact Hauth|exact Hlog].
Qed.

Lemma validate_failure_clears_token_witness :
  let store : gmap string string := {[ "auth_token" := "stale-token" ]} in
  let result := Auth.startup (NotOk (Some "Token expired")) (Auth.mount store) in
  fst result = Return tt
  /\ Auth.localStorage (snd result) = delete "auth_token" store
  /\ LocalStorage.getItem "auth_token" (Auth.localStorage (snd result)) = None
  /\ Auth.user (snd result) = None
  /\ Auth.isAuthenticated (snd result) = false
  /\ (Auth.console (snd result) = []
      \/ Auth.console (snd result) = ["Token validation failed:"]).
Proof.
  intros store.
  apply (validate_failure_clears_token store "stale-token"
           (NotOk (Some "Token expired"))).
  - reflexivity.
  - reflexivity.
  - right. reflexivity.
Defined.

(** C8. [logout] always returns normally and leaves [user] null,
    [isAuthenticated] false and no token under the storage key, whatever the
    session was; a second [logout] changes nothing more. *)
Theorem logout_idempotent (s : Auth.Session) :
  let once := Auth.logout s in
  let twice := Auth.logout (snd once) in
  fst once = Return tt
  /\ Auth.user (snd once) = None
  /\ Auth.isAuthenticated (snd once) = false
  /\ LocalStorage.getItem "auth_token" (Auth.localStorage (snd once)) = None
  /\ fst twice = Return tt
  /\ snd twice = snd once.
Proof.
  cbn. repeat split.
  - apply removeItem_absent.
  - unfold Auth.setIsAuthenticated, Auth.setUser, Auth.removeToken. cbn.
    f_equal. apply removeItem_twice.
Qed.

(** ** Job client *)

Lemma getToken_stored (store : gmap string string) :
  UseAnimation.token_stored store = true ->
  exists token, UseAnimation.getToken store = Return token.
Proof.
  unfold UseAnimation.token_stored, UseAnimation.getToken.
  destruct (LocalStorage.getItem "auth_token" store) as [token|]; [|discriminate].
  intros ->. eauto.
Qed.

Lemma getToken_missing (store : gmap string string) :
  UseAnimation.token_stored store = false ->
  UseAnimation.getToken store = Throw (Error "Not authenticated").
Proof.
  unfold UseAnimation.token_stored, UseAnimation.getToken.
  destruct (LocalStorage.getItem "auth_token" store) as [token|]; [|reflexivity].
  intros ->. reflexivity.
Qed.

(** When [request] returns, the token was there and the response was a
    parsed 2xx. *)
Lemma request_returns {A : Type} (store : gmap string string)
    (resp : Fetched A) (fallback : string) (data : A) :
  UseAnimation.request store resp fallback = Return data <->
  UseAnimation.token_stored store = true /\ resp = Ok2xx data.
Proof.
  unfold UseAnimation.request. split.
  - destruct (UseAnimation.token_stored store) eqn:Htok.
    + destruct (getToken_stored store Htok) as [token ->].
      destruct resp; intros H; inversion H; auto.
    + rewrite (getToken_missing store Htok). discriminate.
  - intros [Htok ->]. destruct (getToken_stored store Htok) as [token ->].
    reflexivity.
Qed.

(** C10, as amended. With [isAuthenticated] true, [listAnimations] always
    resolves normally: a successful call (token stored, parsed 2xx response)
    replaces the cached list with the returned one and leaves no error
    message; any other call keeps the cached list as it was and records an
    error message. With [isAuthenticated] false the guard before the try
    block throws 'Not authenticated' to the caller and the hook state is
    untouched. *)
Theorem listAnimations_error_contained
    (store : gmap string string)
    (resp : Fetched (list Animation.Animation)) (h : UseAnimation.Hook) :
  let result := UseAnimation.listAnimations true store resp h in
  fst result = Return tt
  /\ UseAnimation.loading (snd result) = false
  /\ (forall animations,
        UseAnimation.token_stored store = true -> resp = Ok2xx animations ->
        UseAnimation.animations (snd result) = animations
        /\ UseAnimation.error (snd result) = None)
  /\ (UseAnimation.token_stored store = false \/ (forall animations, resp <> Ok2xx animations) ->
        UseAnimation.animations (snd result) = UseAnimation.animations h
        /\ exists message, UseAnimation.error (snd result) = Some message)
  /\ UseAnimation.listAnimations false store resp h
     = (Throw (Error "Not authenticated"), h).
Proof.
  cbn zeta. unfold UseAnimation.listAnimations. cbn [negb].
  destruct (UseAnimation.request store resp "Failed to list animations")
    as [l | err] eqn:Hreq; cbn.
  - apply request_returns in Hreq as [Htok ->].
    split; [reflexivity|]. split; [reflexivity|]. split; [|split].
    + intros l' _ [= ->]. split; reflexivity.
    + intros [Hno | Hno]; [congruence | exfalso; exact (Hno l eq_refl)].
    + reflexivity.
  - split; [reflexivity|]. split; [reflexivity|]. split; [|split].
    + intros l Htok ->.
      assert (H : UseAnimation.request store (Ok2xx l)
                    "Failed to list animations" = Return l)
        by (apply request_returns; auto).
      congruence.
    + intros _. split; [reflexivity | eauto].
    + reflexivity.
Qed.

Lemma listAnimations_error_contained_witness :
  let store : gmap string string := {[ "auth_token" := "tok" ]} in
  let h := {| UseAnimation.animations := [];
              UseAnimation.loading := false;
              UseAnimation.error := None |} in
  let result := UseAnimation.listAnimations true store (NotOk None) h in
  UseAnimation.animations (snd result) = []
  /\ exists message, UseAnimation.error (snd result) = Some message.
Proof.
  intros store h.
  apply (listAnimations_error_contained store (NotOk None) h).
  right. intros animations. discriminate.
Defined.

(** C10, as stated, fails when [isAuthenticated] is false: the guard sits
    before the try block, so the error reaches the caller. *)
Lemma listAnimations_unauthenticated_throws :
  let h := {| UseAnimation.animations := [];
              UseAnimation.loading := false;
              UseAnimation.error := None |} in
  fst (UseAnimation.listAnimations false ∅ (Rejected (ErrorObj "TypeError" "Failed to fetch")) h)
  = Throw (Error "Not authenticated")
  /\ fst (UseAnimation.listAnimations false ∅ (Rejected (ErrorObj "TypeError" "Failed to fetch")) h)
     <> Return tt.
Proof. split; [reflexivity | discriminate]. Qed.

(** C6, as amended. With a session and a stored token, generate, status,
    delete, get and chat send hand a transport failure to the caller as the
    very value [fetch] rejected with; a non-2xx response whose body parses
    as a plain [Error] whose message is the body's [message] field when that
    is non-empty and the operation's fallback text otherwise; and a non-2xx
    response whose body does not parse as the very value [response.json()]
    rejected with. The client attaches no kind of its own. list hands the
    caller none of them: it returns normally and keeps only the message text
    in the hook's [error] state. *)
Theorem failures_surface_as_thrown_values
    (store : gmap string string) (e parse : Thrown) (m : option string)
    (animationId token message : string) (h : UseAnimation.Hook) :
  UseAnimation.token_stored store = true ->
  (fst (UseAnimation.generateAnimation true store (Rejected e) h) = Throw e
   /\ fst (UseAnimation.generateAnimation true store (NotOk m) h)
      = Throw (Error (or_else m "Failed to generate animation")))
  /\ (fst (UseAnimation.checkStatus true store (Rejected e) h) = Throw e
      /\ fst (UseAnimation.checkStatus true store (NotOk m) h)
         = Throw (Error (or_else m "Failed to check animation status")))
  /\ (fst (UseAnimation.deleteAnimation true store animationId (Rejected e) h)
      = Throw e
      /\ fst (UseAnimation.deleteAnimation true store animationId (NotOk m) h)
         = Throw (Error (or_else m "Failed to delete animation")))
  /\ (fst (UseAnimation.getAnimation true store (Rejected e) h) = Throw e
      /\ fst (UseAnimation.getAnimation true store (NotOk m) h)
         = Throw (Error (or_else m "Failed to get animation")))
  /\ (ChatService.sendMessage message token (Rejected e) = Throw e
      /\ ChatService.sendMessage message token (NotOk m)
         = Throw (Error (or_else m "Failed to generate animation")))
  /\ (UseAnimation.listAnimations true store (Rejected e) h
      = (Return tt,
         {| UseAnimation.animations := UseAnimation.animations h;
            UseAnimation.loading := false;
            UseAnimation.error := Some (message_or e "Failed to list animations") |})
      /\ UseAnimation.listAnimations true store (NotOk m) h
         = (Return tt,
            {| UseAnimation.animations := UseAnimation.animations h;
               UseAnimation.loading := false;
               UseAnimation.error := Some (or_else m "Failed to list animations") |}))
  /\ (fst (UseAnimation.generateAnimation true store (Unparsable false parse) h)
      = Throw parse
      /\ fst (UseAnimation.checkStatus true store (Unparsable false parse) h)
         = Throw parse
      /\ fst (UseAnimation.deleteAnimation true store animationId
                (Unparsable false parse) h)
         = Throw parse
      /\ fst (UseAnimation.getAnimation true store (Unparsable false parse) h)
         = Throw parse
      /\ ChatService.sendMessage message token (Unparsable false parse)
         = Throw parse
      /\ UseAnimation.listAnimations true store (Unparsable false parse) h
         = (Return tt,
            {| UseAnimation.animations := UseAnimation.animations h;
               UseAnimation.loading := false;
               UseAnimation.error :=
                 Some (message_or parse "Failed to list animations") |})).
Proof.
  intros Htok. destruct (getToken_stored store Htok) as [tok Hget].
  unfold UseAnimation.generateAnimation, UseAnimation.checkStatus,
    UseAnimation.deleteAnimation, UseAnimation.getAnimation,
    UseAnimation.listAnimations, UseAnimation.request.
  rewrite Hget. cbn. repeat split; reflexivity.
Qed.

Lemma failures_surface_as_thrown_values_witness :
  let store : gmap string string := {[ "auth_token" := "tok" ]} in
  let h := {| UseAnimation.animations := [];
              UseAnimation.loading := false;
              UseAnimation.error := None |} in
  fst (UseAnimation.checkStatus true store
         (Rejected (ErrorObj "TypeError" "Failed to fetch")) h)
  = Throw (ErrorObj "TypeError" "Failed to fetch")
  /\ fst (UseAnimation.checkStatus true store (NotOk (Some "No such animation")) h)
     = Throw (Error "No such animation").
Proof.
  intros store h.
  apply (failures_surface_as_thrown_values store
           (ErrorObj "TypeError" "Failed to fetch")
           (ErrorObj "SyntaxError" "Unexpected token < in JSON")
           (Some "No such animation")
           "abc123" "tok" "Draw a circle" h).
  reflexivity.
Defined.

(** C6, as stated, fails for list: a transport failure and a non-2xx
    response with the same message text leave the caller with the same
    return value and the same hook state. *)
Lemma list_failures_indistinguishable :
  let store : gmap string string := {[ "auth_token" := "tok" ]} in
  let h := {| UseAnimation.animations := [];
              UseAnimation.loading := false;
              UseAnimation.error := None |} in
  no_response (A := list Animation.Animation)
    (Rejected (ErrorObj "TypeError" "Failed to fetch")) = true
  /\ non_2xx (A := list Animation.Animation)
       (NotOk (Some "Failed to fetch")) = true
  /\ UseAnimation.listAnimations true store
       (Rejected (ErrorObj "TypeError" "Failed to fetch")) h
     = UseAnimation.listAnimations true store
         (NotOk (Some "Failed to fetch")) h.
Proof. repeat split. Qed.

(** ** Chat orchestrator *)

Section ChatTranscript.
Import ChatService Chat.

Lemma sendMessage_begin_authenticated (auth : Auth.Session)
    (content uuid : string) (now : nat) (c : State) :
  authenticated auth = true ->
  exists token,
    LocalStorage.getItem "auth_token" (Auth.localStorage auth) = Some token
    /\ sendMessage_begin auth content uuid now c
       = (Return {| userMessageId := uuid; sent_content := content;
                    sent_token := token |},
          {| messages := messages c ++ [userMessage content uuid now];
             isLoading := true |}).
Proof.
  unfold authenticated, sendMessage_begin.
  destruct (Auth.isAuthenticated auth); [|discriminate].
  destruct (bool_decide (is_Some (Auth.user auth))); [|discriminate].
  destruct (LocalStorage.getItem "auth_token" (Auth.localStorage auth))
    as [token|]; [|discriminate].
  cbn [andb negb orb]. intros Htruthy. exists token. rewrite Htruthy.
  split; reflexivity.
Qed.

Lemma sendMessage_begin_refused (auth : Auth.Session)
    (content uuid : string) (now : nat) (c : State) :
  authenticated auth = false ->
  exists reason, sendMessage_begin auth content uuid now c = (Throw (Error reason), c).
Proof.
  unfold authenticated, sendMessage_begin.
  destruct (Auth.isAuthenticated auth); [|eauto].
  destruct (bool_decide (is_Some (Auth.user auth))); [|eauto].
  destruct (LocalStorage.getItem "auth_token" (Auth.localStorage auth))
    as [token|]; [|eauto].
  cbn [andb negb orb]. intros ->. cbn. eauto.
Qed.

Lemma mark_app (uuid : string) (s : Status) (l1 l2 : list ChatMessage) :
  mark uuid s (l1 ++ l2) = mark uuid s l1 ++ mark uuid s l2.
Proof. unfold mark. apply map_app. Qed.

(** With an id no entry carries, [mark] changes nothing. *)
Lemma mark_fresh (uuid : string) (s : Status) (l : list ChatMessage) :
  Forall (fun msg => id msg <> uuid) l -> mark uuid s l = l.
Proof.
  induction 1 as [|msg l Hmsg _ IH]; [reflexivity|].
  unfold mark in *. cbn [map]. rewrite IH.
  destruct (String.eqb_spec (id msg) uuid); congruence.
Qed.

Lemma mark_userMessage (content uuid : string) (now : nat) (s : Status) :
  mark uuid s [userMessage content uuid now]
  = [with_status s (userMessage content uuid now)].
Proof. cbn. rewrite String.eqb_refl. reflexivity. Qed.

Lemma same_entry_refl (msg : ChatMessage) : same_entry msg msg.
Proof. repeat split. Qed.

Lemma same_entry_with_status (s : Status) (msg : ChatMessage) :
  same_entry msg (with_status s msg).
Proof. repeat split. Qed.

Lemma mark_same_entries (uuid : string) (s : Status) (l : list ChatMessage) :
  Forall2 same_entry l (mark uuid s l).
Proof.
  induction l as [|msg l IH]; cbn; constructor; [|exact IH].
  destruct (String.eqb (id msg) uuid);
    [apply same_entry_with_status | apply same_entry_refl].
Qed.

Lemma mark_length (uuid : string) (s : Status) (l : list ChatMessage) :
  length (mark uuid s l) = length l.
Proof. unfold mark. apply length_map. Qed.

Lemma extends_refl (l : list ChatMessage) : extends l l.
Proof.
  exists l, []. split; [symmetry; apply app_nil_r|].
  induction l; constructor; [apply same_entry_refl | assumption].
Qed.

Lemma extends_append (l added : list ChatMessage) : extends l (l ++ added).
Proof.
  exists l, added. split; [reflexivity|].
  induction l; constructor; [apply same_entry_refl | assumption].
Qed.

Lemma extends_mark (uuid : string) (s : Status) (l added : list ChatMessage) :
  extends l (mark uuid s l ++ added).
Proof.
  exists (mark uuid s l), added. split; [reflexivity | apply mark_same_entries].
Qed.

End ChatTranscript.

Section ChatClaims.
Import ChatService Chat.

Lemma same_entry_trans (m1 m2 m3 : ChatMessage) :
  same_entry m1 m2 -> same_entry m2 m3 -> same_entry m1 m3.
Proof.
  unfold same_entry. intros (? & ? & ? & ? & ?) (? & ? & ? & ? & ?).
  repeat split; congruence.
Qed.

Lemma same_entries_trans (l1 l2 l3 : list ChatMessage) :
  Forall2 same_entry l1 l2 -> Forall2 same_entry l2 l3 ->
  Forall2 same_entry l1 l3.
Proof.
  intros H12. revert l3.
  induction H12 as [|m1 m2 l1 l2 Hm _ IH]; intros l3 H23.
  - inversion H23. constructor.
  - inversion H23 as [|? m3 ? l3' Hm' Hl' ]; subst.
    constructor; [eapply same_entry_trans; eassumption | apply IH; assumption].
Qed.

Lemma extends_trans (l1 l2 l3 : list ChatMessage) :
  extends l1 l2 -> extends l2 l3 -> extends l1 l3.
Proof.
  intros (kept2 & added2 & -> & H12) (kept3 & added3 & -> & H23).
  apply Forall2_app_inv_l in H23 as (k1 & k2 & Hk1 & Hk2 & ->).
  exists k1, (k2 ++ added3). split.
  - symmetry. apply app_assoc.
  - eapply same_entries_trans; eassumption.
Qed.

Lemma extends_length (l1 l2 : list ChatMessage) :
  extends l1 l2 -> length l1 <= length l2.
Proof.
  intros (kept & added & -> & H). apply Forall2_length in H.
  rewrite length_app. lia.
Qed.

(** One step of [sendMessage], or a failed history load, keeps the
    transcript up to status and appended entries. *)
Lemma apply_extends (o : Op) (c : State) :
  keeps_transcript o = true -> extends (messages c) (messages (apply o c)).
Proof.
  destruct o as [auth content uuid now | p outcome uuid now | | token resp];
    cbn [keeps_transcript apply]; intros Hkeep.
  - destruct (authenticated auth) eqn:Hauth.
    + destruct (sendMessage_begin_authenticated auth content uuid now c Hauth)
        as (token & _ & ->).
      apply extends_append.
    + destruct (sendMessage_begin_refused auth content uuid now c Hauth)
        as (reason & ->).
      apply extends_refl.
  - destruct outcome as [response | e]; cbn.
    + apply extends_mark.
    + apply extends_mark.
  - discriminate.
  - unfold loadChatHistory. destruct resp; cbn; try apply extends_refl.
    discriminate.
Qed.

(** C3, as amended. [sendMessage] has no check on its content: with both
    guards passed, [sendMessage] with the empty string appends a pending
    user entry whose content is empty and goes on to the backend call with
    that content; it fails, appending nothing, only when the guards fail (no
    authenticated session, or no stored token). *)
Theorem sendMessage_empty_content_is_sent
    (auth : Auth.Session) (uuid : string) (now : nat) (c : State) :
  (authenticated auth = true ->
   exists token,
     sendMessage_begin auth EmptyString uuid now c
     = (Return {| userMessageId := uuid; sent_content := EmptyString;
                  sent_token := token |},
        {| messages :=
             messages c
             ++ [{| id := uuid; role := user; content := EmptyString;
                    timestamp := now; status := Some pending;
                    animationUrl := None |}];
           isLoading := true |}))
  /\ (authenticated auth = false ->
      exists reason,
        sendMessage_begin auth EmptyString uuid now c = (Throw (Error reason), c)).
Proof.
  split; intros Hauth.
  - destruct (sendMessage_begin_authenticated auth EmptyString uuid now c Hauth)
      as (token & _ & Hbegin).
    exists token. exact Hbegin.
  - apply sendMessage_begin_refused, Hauth.
Qed.

Lemma sendMessage_empty_content_is_sent_witness :
  exists token,
    sendMessage_begin Sample.signed_in EmptyString "m-1" 0 Sample.empty_chat
    = (Return {| userMessageId := "m-1"; sent_content := EmptyString;
                 sent_token := token |},
       {| messages :=
            [{| id := "m-1"; role := user; content := EmptyString;
                timestamp := 0; status := Some pending;
                animationUrl := None |}];
          isLoading := true |}).
Proof.
  apply (sendMessage_empty_content_is_sent Sample.signed_in "m-1" 0
           Sample.empty_chat).
  reflexivity.
Defined.

(** C3, as stated, fails: with a signed-in session [sendMessage] with the
    empty string does not throw, and the transcript gains an entry. *)
Lemma sendMessage_empty_content_appends :
  (forall e,
     fst (sendMessage_begin Sample.signed_in EmptyString "m-1" 0 Sample.empty_chat)
     <> Throw e)
  /\ messages (snd (sendMessage_begin Sample.signed_in EmptyString "m-1" 0
                      Sample.empty_chat))
     <> messages Sample.empty_chat.
Proof. split; [intros e|]; discriminate. Qed.

(** C5, as amended. With both guards passed (authenticated session, stored
    token), [sendMessage] first appends the user entry with status pending
    and sets out for the backend with the content and the token; when the
    backend call returns, that entry is marked completed and an assistant
    entry with status completed and the returned message and animationUrl is
    appended; when it throws, that entry is marked error and an assistant
    entry with the fixed apology text and status error is appended; entries
    with other ids are left as they are. With no authenticated session
    (the flag false, or no user) [sendMessage] throws a plain [Error] with
    the message 'Must be authenticated to send messages', and with a session
    but no stored token a plain [Error] with the message 'No authentication
    token found'; the state is untouched in both cases. This holds for every
    content. *)
Theorem sendMessage_reconciles
    (auth : Auth.Session) (content : string)
    (uuid1 : string) (now1 : nat)
    (resp : Fetched GenerateAnimationResponse)
    (uuid2 : string) (now2 : nat) (c : State) :
  (authenticated auth = true ->
   Forall (fun msg => id msg <> uuid1) (messages c) ->
   exists token,
     LocalStorage.getItem "auth_token" (Auth.localStorage auth) = Some token
     /\ sendMessage_begin auth content uuid1 now1 c
        = (Return {| userMessageId := uuid1; sent_content := content;
                     sent_token := token |},
           {| messages :=
                messages c
                ++ [{| id := uuid1; role := user; content := content;
                       timestamp := now1; status := Some pending;
                       animationUrl := None |}];
              isLoading := true |})
     /\ (forall response,
           ChatService.sendMessage content token resp = Return response ->
           sendMessage auth content uuid1 now1 resp uuid2 now2 c
           = (Return tt,
              {| messages :=
                   messages c
                   ++ [{| id := uuid1; role := user; content := content;
                          timestamp := now1; status := Some completed;
                          animationUrl := None |};
                       {| id := uuid2; role := assistant;
                          content := message response;
                          timestamp := now2; status := Some completed;
                          animationUrl := response_animationUrl response |}];
                 isLoading := false |}))
     /\ (forall e,
           ChatService.sendMessage content token resp = Throw e ->
           sendMessage auth content uuid1 now1 resp uuid2 now2 c
           = (Return tt,
              {| messages :=
                   messages c
                   ++ [{| id := uuid1; role := user; content := content;
                          timestamp := now1; status := Some error;
                          animationUrl := None |};
                       {| id := uuid2; role := assistant;
                          content := "Sorry, I encountered an error while generating the animation. Please try again.";
                          timestamp := now2; status := Some error;
                          animationUrl := None |}];
                 isLoading := false |})))
  /\ (Auth.isAuthenticated auth = false \/ Auth.user auth = None ->
      sendMessage auth content uuid1 now1 resp uuid2 now2 c
      = (Throw (ErrorObj "Error" "Must be authenticated to send messages"), c))
  /\ (Auth.isAuthenticated auth = true -> is_Some (Auth.user auth) ->
      truthy (LocalStorage.getItem "auth_token" (Auth.localStorage auth)) = false ->
      sendMessage auth content uuid1 now1 resp uuid2 now2 c
      = (Throw (ErrorObj "Error" "No authentication token found"), c)).
Proof.
  split; [|split].
  - intros Hauth Hfresh.
    destruct (sendMessage_begin_authenticated auth content uuid1 now1 c Hauth)
      as (token & Htoken & Hbegin).
    exists token. split; [exact Htoken|]. split; [exact Hbegin|].
    unfold sendMessage. rewrite Hbegin. cbn [sent_content sent_token].
    split.
    + intros response ->.
      unfold sendMessage_settle, setMessages, setIsLoading.
      cbn [messages isLoading userMessageId].
      rewrite mark_app, mark_userMessage, (mark_fresh _ _ _ Hfresh).
      rewrite <- app_assoc. reflexivity.
    + intros e ->.
      unfold sendMessage_settle, setMessages, setIsLoading.
      cbn [messages isLoading userMessageId].
      rewrite mark_app, mark_userMessage, (mark_fresh _ _ _ Hfresh).
      rewrite <- app_assoc. reflexivity.
  - intros Hno. unfold sendMessage, sendMessage_begin.
    destruct Hno as [-> | Huser]; [reflexivity|].
    rewrite Huser. rewrite bool_decide_eq_false_2 by (intros [u Hu]; discriminate Hu).
    destruct (Auth.isAuthenticated auth); reflexivity.
  - intros Hflag Huser Htoken. unfold sendMessage, sendMessage_begin.
    rewrite Hflag, (bool_decide_eq_true_2 _ Huser). cbn [negb orb].
    destruct (LocalStorage.getItem "auth_token" (Auth.localStorage auth))
      as [token|]; [|reflexivity].
    rewrite Htoken. reflexivity.
Qed.

Lemma sendMessage_reconciles_witness :
  sendMessage Sample.signed_in "Draw a circle" "m-1" 0
    (Ok2xx Sample.reply) "m-2" 1 Sample.empty_chat
  = (Return tt,
     {| messages :=
          [{| id := "m-1"; role := user; content := "Draw a circle";
              timestamp := 0; status := Some completed;
              animationUrl := None |};
           {| id := "m-2"; role := assistant;
              content := "Here is your animation";
              timestamp := 1; status := Some completed;
              animationUrl := Some "/v/abc123.mp4" |}];
        isLoading := false |}).
Proof.
  destruct (proj1 (sendMessage_reconciles Sample.signed_in "Draw a circle"
                     "m-1" 0 (Ok2xx Sample.reply) "m-2" 1 Sample.empty_chat))
    as (token & _ & _ & Hok & _).
  - reflexivity.
  - constructor.
  - apply (Hok Sample.reply). reflexivity.
Defined.

(** C5, as stated, fails on the kind of the error: without an authenticated
    session [sendMessage] throws an instance of [Error] itself, which is no
    StateError. *)
Lemma sendMessage_refusal_is_plain_error :
  sendMessage Sample.signed_out "Draw a circle" "m-1" 0
    (Ok2xx Sample.reply) "m-2" 1 Sample.empty_chat
  = (Throw (ErrorObj "Error" "Must be authenticated to send messages"),
     Sample.empty_chat)
  /\ forall text,
       fst (sendMessage Sample.signed_out "Draw a circle" "m-1" 0
              (Ok2xx Sample.reply) "m-2" 1 Sample.empty_chat)
       <> Throw (ErrorObj "StateError" text).
Proof. split; [reflexivity | intros text; discriminate]. Qed.

(** C9, as amended. Every step of [sendMessage] (the optimistic append, the
    completion and the failure handling), on whatever the transcript is at
    that moment, and every failed history load, keeps all existing entries
    in place and in order, changing at most their status, and only appends;
    so does any sequence of such steps. [clearMessages] empties the
    transcript, and a successful chat-history load replaces the whole
    transcript with the entries the server returned. *)
Theorem transcript_append_only (ops : list Op) (c : State) :
  (forallb keeps_transcript ops = true ->
   extends (messages c) (messages (run ops c)))
  /\ messages (apply OpClear c) = []
  /\ (forall token history,
        messages (apply (OpHistory token (Ok2xx history)) c) = history).
Proof.
  split; [|split; reflexivity].
  revert c. induction ops as [|o ops IH]; intros c Hkeep.
  - apply extends_refl.
  - cbn in Hkeep. apply andb_prop in Hkeep as [Ho Hops].
    cbn. eapply extends_trans; [apply apply_extends, Ho | apply IH, Hops].
Qed.

Lemma transcript_append_only_witness :
  extends (messages Sample.one_pending)
    (messages
       (run [OpSettle {| userMessageId := "m-1";
                         sent_content := "Draw a circle";
                         sent_token := "tok" |}
               (Return Sample.reply) "m-2" 1;
             OpBegin Sample.signed_in "Now a square" "m-3" 2]
          Sample.one_pending)).
Proof.
  apply (transcript_append_only
           [OpSettle {| userMessageId := "m-1";
                        sent_content := "Draw a circle";
                        sent_token := "tok" |}
              (Return Sample.reply) "m-2" 1;
            OpBegin Sample.signed_in "Now a square" "m-3" 2]
           Sample.one_pending).
  reflexivity.
Defined.

(** C9, as stated, fails: the chat-history load, which is not
    clearMessages, drops the entries the transcript held. *)
Lemma history_load_replaces_transcript :
  keeps_transcript (OpHistory "tok" (Ok2xx [])) = false
  /\ messages (apply (OpHistory "tok" (Ok2xx [])) Sample.one_pending) = []
  /\ ~ extends (messages Sample.one_pending)
         (messages (apply (OpHistory "tok" (Ok2xx [])) Sample.one_pending)).
Proof.
  split; [reflexivity|]. split; [reflexivity|].
  intros Hext. apply extends_length in Hext. cbn in Hext. lia.
Qed.

End ChatClaims.

(** ** Job poller *)

Section Poller.
Import Generator.

Lemma mapAnimationStatus_cases (s : string) :
  (s = "pending" \/ s = "generating" ->
   mapAnimationStatus s = ComponentStatus.generating)
  /\ (s = "completed" -> mapAnimationStatus s = ComponentStatus.completed)
  /\ (s = "error" -> mapAnimationStatus s = ComponentStatus.error).
Proof.
  split; [|split].
  - intros [-> | ->]; reflexivity.
  - intros ->; reflexivity.
  - intros ->; reflexivity.
Qed.

(** On an unmounted component the continuation of [pollStatus] can only
    call the parent's callback, and at most once. *)
Lemma pollStatus_resume_unmounted (animationId : string)
    (result : Completion Animation.Animation) (c : Component) :
  mounted c = false ->
  let c' := pollStatus_resume animationId result c in
  mounted c' = false
  /\ intervalId c' = intervalId c
  /\ awaiting c' = awaiting c
  /\ statusCalls c' = statusCalls c
  /\ currentAnimationId c' = currentAnimationId c
  /\ status c' = status c
  /\ error c' = error c
  /\ exists fired, completions c' = completions c ++ fired /\ length fired <= 1.
Proof.
  intros Hm. unfold pollStatus_resume.
  destruct result as [animation | err].
  - destruct (mapAnimationStatus (Animation.status animation));
      unfold setStatus, setError, setCurrentAnimationId, call_onAnimationComplete;
      rewrite ?Hm; cbn.
    + repeat split; auto. exists []. rewrite app_nil_r. split; auto.
    + repeat split; auto. exists []. rewrite app_nil_r. split; auto.
    + destruct (onAnimationComplete c); cbn; rewrite ?Hm; cbn.
      * repeat split; auto. exists [animationId]. split; auto.
      * repeat split; auto. exists []. rewrite app_nil_r. split; auto.
    + repeat split; auto. exists []. rewrite app_nil_r. split; auto.
  - unfold setStatus, setError, setCurrentAnimationId. rewrite ?Hm. cbn.
    rewrite ?Hm.
    repeat split; auto. exists []. rewrite app_nil_r. split; auto.
Qed.

Lemma step_unmounted (s : Step) (c : Component) :
  mounted c = false -> intervalId c = false ->
  let c' := step s c in
  mounted c' = false
  /\ intervalId c' = false
  /\ statusCalls c' = statusCalls c
  /\ currentAnimationId c' = currentAnimationId c
  /\ status c' = status c
  /\ error c' = error c
  /\ exists fired,
       completions c' = completions c ++ fired
       /\ length fired + length (awaiting c') <= length (awaiting c).
Proof.
  intros Hm Hi. destruct s as [|k result|]; cbn [step].
  - rewrite Hi. repeat split; auto. exists []. rewrite app_nil_r. split; auto.
  - destruct (awaiting c !! k) as [animationId|] eqn:Hk.
    + assert (Hmd : mounted (dequeue k c) = false) by exact Hm.
      destruct (pollStatus_resume_unmounted animationId result (dequeue k c) Hmd)
        as (Hm' & Hi' & Ha' & Hs' & Hc' & Hst' & He' & fired & Hf & Hlen).
      unfold render. rewrite Hm'.
      split; [exact Hm'|]. split; [rewrite Hi'; exact Hi|].
      split; [exact Hs'|]. split; [exact Hc'|].
      split; [exact Hst'|]. split; [exact He'|].
      exists fired. split; [exact Hf|].
      rewrite Ha'. cbn [awaiting dequeue].
      rewrite length_delete by (rewrite Hk; eauto).
      apply lookup_lt_Some in Hk. lia.
    + repeat split; auto. exists []. rewrite app_nil_r. split; auto.
  - unfold unmount, cleanup. cbn.
    repeat split; auto. exists []. rewrite app_nil_r. split; auto.
Qed.

Lemma run_unmounted (steps : list Step) (c : Component) :
  mounted c = false -> intervalId c = false ->
  let c' := run steps c in
  mounted c' = false
  /\ intervalId c' = false
  /\ statusCalls c' = statusCalls c
  /\ currentAnimationId c' = currentAnimationId c
  /\ status c' = status c
  /\ error c' = error c
  /\ exists fired,
       completions c' = completions c ++ fired
       /\ length fired + length (awaiting c') <= length (awaiting c).
Proof.
  revert c. induction steps as [|s steps IH]; intros c Hm Hi.
  - cbn. repeat split; auto. exists []. rewrite app_nil_r. split; auto.
  - change (run (s :: steps) c) with (run steps (step s c)). cbn zeta.
    destruct (step_unmounted s c Hm Hi)
      as (Hm1 & Hi1 & Hs1 & Hc1 & Hst1 & He1 & fired1 & Hf1 & Hlen1).
    destruct (IH (step s c) Hm1 Hi1)
      as (Hm2 & Hi2 & Hs2 & Hc2 & Hst2 & He2 & fired2 & Hf2 & Hlen2).
    split; [exact Hm2|]. split; [exact Hi2|].
    split; [congruence|]. split; [congruence|].
    split; [congruence|]. split; [congruence|].
    exists (fired1 ++ fired2). split.
    + rewrite Hf2, Hf1. symmetry. apply app_assoc.
    + rewrite length_app. lia.
Qed.

(** What the continuation of [pollStatus] never touches. *)
Lemma pollStatus_resume_frame (animationId : string)
    (result : Completion Animation.Animation) (c : Component) :
  let c' := pollStatus_resume animationId result c in
  closure c' = closure c
  /\ statusCalls c' = statusCalls c
  /\ awaiting c' = awaiting c
  /\ intervalId c' = intervalId c
  /\ mounted c' = mounted c
  /\ (currentAnimationId c' = currentAnimationId c
      \/ currentAnimationId c' = None).
Proof.
  destruct c as [cur st err cb m cl iv aw sc co].
  unfold pollStatus_resume.
  destruct result as [animation | e];
    [destruct (mapAnimationStatus (Animation.status animation))|];
    destruct m, cb; cbn; auto 10.
Qed.

Lemma render_frame (c : Component) :
  let c' := render c in
  currentAnimationId c' = currentAnimationId c
  /\ status c' = status c
  /\ error c' = error c
  /\ statusCalls c' = statusCalls c
  /\ completions c' = completions c
  /\ awaiting c' = awaiting c
  /\ mounted c' = mounted c
  /\ (closure c' = closure c \/ closure c' = (currentAnimationId c, status c)).
Proof.
  unfold render. destruct (mounted c) eqn:Hm; [|auto 10].
  destruct (decide ((currentAnimationId c, status c) = closure c)); cbn; auto 10.
Qed.

(** Once no job id is held, in the state or in the effect's closure, no
    step issues a status call. *)
Lemma step_without_job (s : Step) (c : Component) :
  currentAnimationId c = None -> fst (closure c) = None ->
  let c' := step s c in
  currentAnimationId c' = None
  /\ fst (closure c') = None
  /\ statusCalls c' = statusCalls c.
Proof.
  intros Hcur Hcl. destruct s as [|k result|]; cbn [step].
  - destruct (intervalId c); [|auto].
    unfold pollStatus_begin.
    destruct (closure c) as [[animationId|] st] eqn:Hclo;
      [discriminate Hcl|].
    rewrite Hclo. auto.
  - destruct (awaiting c !! k) as [animationId|]; [|auto].
    destruct (pollStatus_resume_frame animationId result (dequeue k c))
      as (Hcl' & Hsc' & _ & _ & _ & Hcur').
    destruct (render_frame (pollStatus_resume animationId result (dequeue k c)))
      as (Hcur'' & _ & _ & Hsc'' & _ & _ & _ & Hcl'').
    assert (Hnone : currentAnimationId
                      (pollStatus_resume animationId result (dequeue k c)) = None).
    { destruct Hcur' as [-> | ->]; [exact Hcur | reflexivity]. }
    split; [rewrite Hcur''; exact Hnone|].
    split; [|rewrite Hsc'', Hsc'; reflexivity].
    destruct Hcl'' as [-> | ->]; [rewrite Hcl'; exact Hcl | exact Hnone].
  - unfold unmount, cleanup. cbn. auto.
Qed.

Lemma run_without_job (steps : list Step) (c : Component) :
  currentAnimationId c = None -> fst (closure c) = None ->
  statusCalls (run steps c) = statusCalls c.
Proof.
  revert c. induction steps as [|s steps IH]; intros c Hcur Hcl; [reflexivity|].
  change (run (s :: steps) c) with (run steps (step s c)).
  destruct (step_without_job s c Hcur Hcl) as (Hcur' & Hcl' & Hsc').
  rewrite (IH _ Hcur' Hcl'). exact Hsc'.
Qed.

(** Submitting a prompt and receiving a job id leads to polling that job. *)
Lemma started_polling (animationId : string) (callback : bool) :
  truthy (Some animationId) = true ->
  polling animationId (started animationId callback).
Proof.
  intros Hid. unfold polling.
  split; [reflexivity|]. split; [exact Hid|]. split; [reflexivity|].
  split; [reflexivity|]. split; reflexivity.
Qed.

(** The commit after a state update, by cases. *)
Lemma render_unchanged (c : Component) :
  (currentAnimationId c, status c) = closure c -> render c = c.
Proof.
  intros Heq. unfold render. destruct (mounted c); [|reflexivity].
  destruct (decide _) as [_ | Hne]; [reflexivity | contradiction].
Qed.

Lemma render_changed (c : Component) :
  mounted c = true -> (currentAnimationId c, status c) <> closure c ->
  render c = effect (cleanup c).
Proof.
  intros Hm Hne. unfold render. rewrite Hm.
  destruct (decide _) as [Heq | _]; [contradiction | reflexivity].
Qed.

(** The continuation of [pollStatus] on a mounted component, by cases. *)
Lemma resume_generating (animationId : string)
    (animation : Animation.Animation) (c : Component) :
  mounted c = true ->
  mapAnimationStatus (Animation.status animation) = ComponentStatus.generating ->
  pollStatus_resume animationId (Return animation) c
  = {| currentAnimationId := currentAnimationId c;
       status := ComponentStatus.generating;
       error := error c; onAnimationComplete := onAnimationComplete c;
       mounted := true; closure := closure c;
       intervalId := intervalId c; awaiting := awaiting c;
       statusCalls := statusCalls c; completions := completions c |}.
Proof.
  destruct c. cbn [mounted]. intros -> Hs.
  unfold pollStatus_resume. rewrite Hs. reflexivity.
Qed.

Lemma resume_completed (animationId : string)
    (animation : Animation.Animation) (c : Component) :
  mounted c = true ->
  mapAnimationStatus (Animation.status animation) = ComponentStatus.completed ->
  pollStatus_resume animationId (Return animation) c
  = {| currentAnimationId := None;
       status := ComponentStatus.completed;
       error := error c; onAnimationComplete := onAnimationComplete c;
       mounted := true; closure := closure c;
       intervalId := intervalId c; awaiting := awaiting c;
       statusCalls := statusCalls c;
       completions :=
         completions c
         ++ (if onAnimationComplete c then [animationId] else []) |}.
Proof.
  destruct c as [cur st err cb m cl iv aw sc co]. cbn [mounted]. intros -> Hs.
  unfold pollStatus_resume. rewrite Hs.
  destruct cb; [reflexivity|].
  cbn [onAnimationComplete completions]. rewrite app_nil_r. reflexivity.
Qed.

Lemma resume_error (animationId : string)
    (animation : Animation.Animation) (c : Component) :
  mounted c = true ->
  mapAnimationStatus (Animation.status animation) = ComponentStatus.error ->
  pollStatus_resume animationId (Return animation) c
  = {| currentAnimationId := None;
       status := ComponentStatus.error;
       error := Some (or_else (Animation.error animation)
                        "Animation generation failed");
       onAnimationComplete := onAnimationComplete c;
       mounted := true; closure := closure c;
       intervalId := intervalId c; awaiting := awaiting c;
       statusCalls := statusCalls c; completions := completions c |}.
Proof.
  destruct c. cbn [mounted]. intros -> Hs.
  unfold pollStatus_resume. rewrite Hs. reflexivity.
Qed.

Lemma resume_throw (animationId : string) (err : Thrown) (c : Component) :
  mounted c = true ->
  pollStatus_resume animationId (Throw err) c
  = {| currentAnimationId := None;
       status := ComponentStatus.error;
       error := Some (message_or err "Failed to check animation status");
       onAnimationComplete := onAnimationComplete c;
       mounted := true; closure := closure c;
       intervalId := intervalId c; awaiting := awaiting c;
       statusCalls := statusCalls c; completions := completions c |}.
Proof. destruct c. cbn [mounted]. intros ->. reflexivity. Qed.

(** A settled status call while polling, unfolded. *)
Lemma settle_while_polling (animationId : string) (k : nat)
    (result : Completion Animation.Animation) (c : Component) :
  polling animationId c ->
  awaiting c !! k = Some animationId ->
  step (Settle k result) c
  = render (pollStatus_resume animationId result (dequeue k c))
  /\ mounted (dequeue k c) = true
  /\ currentAnimationId (dequeue k c) = Some animationId
  /\ status (dequeue k c) = ComponentStatus.generating
  /\ closure (dequeue k c) = (Some animationId, ComponentStatus.generating)
  /\ intervalId (dequeue k c) = true
  /\ error (dequeue k c) = error c
  /\ onAnimationComplete (dequeue k c) = onAnimationComplete c
  /\ statusCalls (dequeue k c) = statusCalls c
  /\ completions (dequeue k c) = completions c.
Proof.
  intros (Hm & _ & Hcur & Hst & Hcl & Hiv) Hk. cbn [step]. rewrite Hk.
  repeat split; assumption.
Qed.

(** C2, as amended. While the component is polling a job, a status
    response for it has these effects. Status 'pending' or 'generating':
    the component stays as it was (status generating, interval live), and
    nothing is reported. Status 'completed': the component becomes
    completed, drops the job id and the interval, and calls
    [onAnimationComplete] (when the prop is passed) with the job's id, not
    with its video path. Status 'error': the component becomes error,
    drops the job id and the interval, and its error text is the job's
    [error] field, or 'Animation generation failed' when that field is
    missing or empty; the callback is not called. *)
Theorem status_response_mapping
    (animationId : string) (k : nat) (animation : Animation.Animation)
    (c : Component) :
  polling animationId c ->
  awaiting c !! k = Some animationId ->
  let c' := step (Settle k (Return animation)) c in
  (Animation.status animation = "pending"
   \/ Animation.status animation = "generating" ->
   c' = dequeue k c
   /\ status c' = ComponentStatus.generating
   /\ currentAnimationId c' = Some animationId
   /\ intervalId c' = true
   /\ error c' = error c
   /\ completions c' = completions c)
  /\ (Animation.status animation = "completed" ->
      status c' = ComponentStatus.completed
      /\ currentAnimationId c' = None
      /\ intervalId c' = false
      /\ error c' = error c
      /\ completions c'
         = completions c ++ (if onAnimationComplete c then [animationId] else []))
  /\ (Animation.status animation = "error" ->
      status c' = ComponentStatus.error
      /\ currentAnimationId c' = None
      /\ intervalId c' = false
      /\ error c'
         = Some (or_else (Animation.error animation) "Animation generation failed")
      /\ completions c' = completions c).
Proof.
  intros Hpoll Hk c'. subst c'.
  destruct (settle_while_polling animationId k (Return animation) c Hpoll Hk)
    as (-> & Hm & Hcur & Hst & Hcl & Hiv & Herr & Hcb & Hsc & Hco).
  destruct (mapAnimationStatus_cases (Animation.status animation))
    as (Hgen & Hdone & Hfail).
  split; [|split]; intros Hs.
  - rewrite (resume_generating _ _ _ Hm (Hgen Hs)).
    rewrite render_unchanged
      by (cbn [currentAnimationId status closure]; rewrite Hcur, Hcl; reflexivity).
    cbn [currentAnimationId status error intervalId completions].
    split.
    + destruct (dequeue k c) as [cur st e0 cb m cl iv aw sc co].
      cbn in Hm, Hst. subst. reflexivity.
    + repeat split; assumption.
  - rewrite (resume_completed _ _ _ Hm (Hdone Hs)).
    rewrite render_changed;
      [| reflexivity
       | cbn [currentAnimationId status closure]; rewrite Hcl; discriminate].
    cbn [effect cleanup currentAnimationId status error intervalId completions
         onAnimationComplete].
    rewrite Hcb, Hco. repeat split; try assumption.
  - rewrite (resume_error _ _ _ Hm (Hfail Hs)).
    rewrite render_changed;
      [| reflexivity
       | cbn [currentAnimationId status closure]; rewrite Hcl; discriminate].
    cbn [effect cleanup currentAnimationId status error intervalId completions
         onAnimationComplete].
    repeat split; try assumption.
Qed.

Lemma status_response_mapping_witness :
  let c := step Tick (started "abc123" true) in
  let c' :=
    step (Settle 0 (Return (Sample.job "error" None (Some "Scene failed to render")))) c in
  status c' = ComponentStatus.error
  /\ currentAnimationId c' = None
  /\ intervalId c' = false
  /\ error c' = Some "Scene failed to render"
  /\ completions c' = [].
Proof.
  intros c.
  apply (status_response_mapping "abc123" 0
           (Sample.job "error" None (Some "Scene failed to render")) c).
  - repeat split.
  - reflexivity.
  - reflexivity.
Defined.

(** C2, as stated, fails: on 'completed' the callback receives the job id
    the component was polling, while the job's video path is another
    string. *)
Lemma completion_carries_job_id :
  let animation := Sample.job "completed" (Some "/v/abc123.mp4") None in
  let c := step Tick (started "abc123" true) in
  polling "abc123" c
  /\ Animation.video_path animation = Some "/v/abc123.mp4"
  /\ completions (step (Settle 0 (Return animation)) c) = ["abc123"]
  /\ completions (step (Settle 0 (Return animation)) c) <> ["/v/abc123.mp4"].
Proof.
  cbn zeta. split; [repeat split|]. split; [reflexivity|].
  split; [reflexivity | discriminate].
Qed.

(** With no status call awaiting its answer and no job id in the effect's
    closure, nothing that can happen changes what the component shows. *)
Lemma step_at_rest (s : Step) (c : Component) :
  awaiting c = [] -> fst (closure c) = None ->
  let c' := step s c in
  awaiting c' = [] /\ fst (closure c') = None
  /\ status c' = status c
  /\ error c' = error c
  /\ currentAnimationId c' = currentAnimationId c
  /\ completions c' = completions c
  /\ statusCalls c' = statusCalls c
  /\ (intervalId c = false -> intervalId c' = false).
Proof.
  intros Haw Hcl. destruct s as [|k result|]; cbn [step].
  - assert (Hsame : (if intervalId c then pollStatus_begin c else c) = c).
    { destruct (intervalId c); [|reflexivity]. unfold pollStatus_begin.
      destruct (closure c) as [[animationId|] st];
        [discriminate Hcl | reflexivity]. }
    rewrite Hsame. auto 10.
  - destruct (awaiting c !! k) as [animationId|] eqn:Hk; [|auto 10].
    rewrite Haw, lookup_nil in Hk. discriminate Hk.
  - unfold unmount, cleanup. cbn. auto 10.
Qed.

Lemma run_at_rest (steps : list Step) (c : Component) :
  awaiting c = [] -> fst (closure c) = None -> intervalId c = false ->
  let c' := run steps c in
  status c' = status c
  /\ error c' = error c
  /\ currentAnimationId c' = currentAnimationId c
  /\ completions c' = completions c
  /\ intervalId c' = false.
Proof.
  revert c. induction steps as [|s steps IH]; intros c Haw Hcl Hiv.
  - cbn. auto.
  - change (run (s :: steps) c) with (run steps (step s c)). cbn zeta.
    destruct (step_at_rest s c Haw Hcl)
      as (Haw' & Hcl' & Hst & Herr & Hcur & Hco & _ & Hiv').
    destruct (IH (step s c) Haw' Hcl' (Hiv' Hiv))
      as (Hst2 & Herr2 & Hcur2 & Hco2 & Hiv2).
    repeat split; congruence.
Qed.

(** C4, as amended. A status call that gets no response, or a non-2xx
    response, throws; and when a status call made while polling throws, the
    component becomes error with the thrown error's message as its error
    text, drops the job id and clears the interval; from then on no interval
    tick, late response or unmount makes it issue another status call. The
    error state is final when no other status call was awaiting its answer:
    then whatever happens later, the component keeps showing that error and
    the callback is not called. (With another call still awaiting its
    answer, that answer is applied when it arrives.) *)
Theorem status_failure_stops_polling
    (isAuthenticated : bool) (store : gmap string string)
    (resp : Fetched Animation.Animation) (h : UseAnimation.Hook)
    (animationId : string) (k : nat) (c : Component) :
  polling animationId c ->
  awaiting c !! k = Some animationId ->
  no_response resp = true \/ non_2xx resp = true ->
  exists err,
    fst (UseAnimation.checkStatus isAuthenticated store resp h) = Throw err
    /\ (isAuthenticated = true -> UseAnimation.token_stored store = true ->
        forall e, resp = Rejected e -> err = e)
    /\ let c' := step (Settle k (Throw err)) c in
       status c' = ComponentStatus.error
       /\ error c' = Some (message_or err "Failed to check animation status")
       /\ currentAnimationId c' = None
       /\ intervalId c' = false
       /\ completions c' = completions c
       /\ statusCalls c' = statusCalls c
       /\ (forall later, statusCalls (run later c') = statusCalls c)
       /\ (awaiting c = [animationId] ->
           forall later,
             status (run later c') = ComponentStatus.error
             /\ error (run later c')
                = Some (message_or err "Failed to check animation status")
             /\ currentAnimationId (run later c') = None
             /\ intervalId (run later c') = false
             /\ completions (run later c') = completions c).
Proof.
  intros Hpoll Hk Hfail.
  assert (Hthrow : exists err,
             fst (UseAnimation.checkStatus isAuthenticated store resp h) = Throw err
             /\ (isAuthenticated = true -> UseAnimation.token_stored store = true ->
                 forall e, resp = Rejected e -> err = e)).
  { unfold UseAnimation.checkStatus.
    destruct isAuthenticated; cbn [negb]; [|eexists; split; [reflexivity|discriminate]].
    destruct (UseAnimation.request store resp "Failed to check animation status")
      as [data | err] eqn:Hreq.
    - apply request_returns in Hreq as [_ ->].
      destruct Hfail as [H | H]; discriminate H.
    - exists err. split; [reflexivity|].
      intros _ Htok e ->. unfold UseAnimation.request in Hreq.
      destruct (getToken_stored store Htok) as [token Hget].
      rewrite Hget in Hreq. congruence. }
  destruct Hthrow as (err & Hthrow & Hsame).
  exists err. split; [exact Hthrow|]. split; [exact Hsame|].
  cbn zeta.
  destruct (settle_while_polling animationId k (Throw err) c Hpoll Hk)
    as (Hstep & Hm & _ & _ & Hclo & _ & _ & _ & Hsc0 & Hco0).
  assert (Hafter :
            status (step (Settle k (Throw err)) c) = ComponentStatus.error
            /\ error (step (Settle k (Throw err)) c)
               = Some (message_or err "Failed to check animation status")
            /\ currentAnimationId (step (Settle k (Throw err)) c) = None
            /\ intervalId (step (Settle k (Throw err)) c) = false
            /\ completions (step (Settle k (Throw err)) c) = completions c
            /\ statusCalls (step (Settle k (Throw err)) c) = statusCalls c
            /\ fst (closure (step (Settle k (Throw err)) c)) = None
            /\ awaiting (step (Settle k (Throw err)) c) = delete k (awaiting c)).
  { rewrite Hstep, (resume_throw _ _ _ Hm).
    rewrite render_changed;
      [| reflexivity
       | cbn [currentAnimationId status closure]; rewrite Hclo; discriminate].
    cbn [effect cleanup currentAnimationId status error intervalId completions
         statusCalls closure fst awaiting dequeue].
    repeat split; assumption. }
  destruct Hafter as (Hst & Herr & Hcur & Hiv & Hco & Hsc & Hcl & Haw).
  split; [exact Hst|]. split; [exact Herr|]. split; [exact Hcur|].
  split; [exact Hiv|]. split; [exact Hco|]. split; [exact Hsc|].
  split.
  - intros later. rewrite (run_without_job later _ Hcur Hcl). exact Hsc.
  - intros Hone later.
    assert (Hnone : awaiting (step (Settle k (Throw err)) c) = []).
    { rewrite Haw, Hone. rewrite Hone in Hk.
      destruct k as [|k]; [reflexivity | discriminate Hk]. }
    destruct (run_at_rest later _ Hnone Hcl Hiv)
      as (Hst' & Herr' & Hcur' & Hco' & Hiv').
    repeat split; congruence.
Qed.

Lemma status_failure_stops_polling_witness :
  exists err,
    fst (UseAnimation.checkStatus true {[ "auth_token" := "tok" ]}
           (Rejected (ErrorObj "TypeError" "Failed to fetch")) Sample.empty_hook)
    = Throw err
    /\ let c' := step (Settle 0 (Throw err)) (step Tick (started "abc123" true)) in
       status c' = ComponentStatus.error
       /\ error c' = Some (message_or err "Failed to check animation status")
       /\ intervalId c' = false
       /\ statusCalls (run [Tick; Tick] c') = ["abc123"]
       /\ status (run [Tick; Unmount] c') = ComponentStatus.error.
Proof.
  destruct (status_failure_stops_polling true {[ "auth_token" := "tok" ]}
              (Rejected (ErrorObj "TypeError" "Failed to fetch"))
              Sample.empty_hook "abc123" 0 (step Tick (started "abc123" true)))
    as (err & Hthrow & _ & Hst & Herr & _ & Hiv & _ & _ & Hquiet & Hfinal).
  - repeat split.
  - reflexivity.
  - left. reflexivity.
  - exists err. split; [exact Hthrow|]. cbn zeta.
    split; [exact Hst|]. split; [exact Herr|]. split; [exact Hiv|].
    split; [exact (Hquiet [Tick; Tick])|].
    apply (Hfinal eq_refl [Tick; Unmount]).
Defined.

(** C4, as stated, fails on the word terminal. When the interval has fired
    twice before the first status call settles, two calls are awaiting their
    answers; the first fails and the component shows the error, and then the
    answer of the second is applied: 'completed' makes the component
    completed and calls the completion callback, 'generating' makes it
    generating again. *)
Lemma failed_state_left_by_late_answer :
  let c := run [Tick; Tick] (started "abc123" true) in
  let failed := step (Settle 0 (Throw (Error "Failed to fetch"))) c in
  fst (UseAnimation.checkStatus true {[ "auth_token" := "tok" ]}
         (Rejected (Error "Failed to fetch")) Sample.empty_hook)
  = Throw (Error "Failed to fetch")
  /\ polling "abc123" c
  /\ awaiting c !! 0 = Some "abc123"
  /\ status failed = ComponentStatus.error
  /\ status (step (Settle 0 (Return (Sample.job "completed" (Some "/v/abc123.mp4") None)))
               failed)
     = ComponentStatus.completed
  /\ completions
       (step (Settle 0 (Return (Sample.job "completed" (Some "/v/abc123.mp4") None)))
          failed)
     = ["abc123"]
  /\ status (step (Settle 0 (Return (Sample.job "generating" None None))) failed)
     = ComponentStatus.generating.
Proof. cbn zeta. repeat split. Qed.

(** C1, as amended. Tearing the effect down clears the interval, so that
    from then on no status call is started, and the state of the unmounted
    component no longer changes (no failure transition is shown). A status
    call already awaiting its response still runs its continuation: when it
    resolves 'completed', [onAnimationComplete] is called with the polled
    id. The callbacks made after the teardown are at most as many as the
    status calls that were awaiting a response at that moment. *)
Theorem teardown_stops_scheduling_only (c : Component) (later : list Step) :
  let c0 := unmount c in
  let c' := run later c0 in
  (intervalId c' = false
   /\ statusCalls c' = statusCalls c
   /\ currentAnimationId c' = currentAnimationId c
   /\ status c' = status c
   /\ error c' = error c
   /\ exists fired,
        completions c' = completions c ++ fired
        /\ length fired + length (awaiting c') <= length (awaiting c))
  /\ (forall animationId rest animation,
        onAnimationComplete c = true ->
        awaiting c = animationId :: rest ->
        Animation.status animation = "completed" ->
        completions (step (Settle 0 (Return animation)) c0)
        = completions c ++ [animationId]).
Proof.
  cbn zeta. split.
  - destruct (run_unmounted later (unmount c) eq_refl eq_refl)
      as (_ & Hiv & Hsc & Hcur & Hst & Herr & fired & Hfired & Hlen).
    split; [exact Hiv|]. split; [exact Hsc|]. split; [exact Hcur|].
    split; [exact Hst|]. split; [exact Herr|].
    exists fired. split; [exact Hfired | exact Hlen].
  - intros animationId rest animation Hcb Haw Hs.
    destruct (mapAnimationStatus_cases (Animation.status animation))
      as (_ & Hdone & _).
    destruct c as [cur st err cb m cl iv aw sc co].
    cbn in Hcb, Haw. subst.
    cbn [step unmount cleanup awaiting lookup list_lookup].
    unfold pollStatus_resume. rewrite (Hdone Hs).
    reflexivity.
Qed.

Lemma teardown_stops_scheduling_only_witness :
  let c := step Tick (started "abc123" true) in
  completions
    (step (Settle 0 (Return (Sample.job "completed" (Some "/v/abc123.mp4") None)))
       (unmount c))
  = completions c ++ ["abc123"].
Proof.
  intros c.
  apply (proj2 (teardown_stops_scheduling_only c [])
           "abc123" [] (Sample.job "completed" (Some "/v/abc123.mp4") None)).
  - reflexivity.
  - reflexivity.
  - reflexivity.
Defined.

(** C1, as stated, fails. A status call is awaiting its response when the
    component is unmounted; the response, 'completed', arrives afterwards
    and the completion callback is called all the same. And with two status
    calls awaiting their responses (the interval fires again before the
    first one settles), two 'completed' responses call it twice. *)
Lemma late_response_still_completes :
  let animation := Sample.job "completed" (Some "/v/abc123.mp4") None in
  let cancelled := run [Tick; Unmount] (started "abc123" true) in
  (intervalId cancelled = false
   /\ completions cancelled = []
   /\ completions (step (Settle 0 (Return animation)) cancelled) = ["abc123"])
  /\ completions
       (run [Tick; Tick; Settle 0 (Return animation); Settle 0 (Return animation)]
          (started "abc123" true))
     = ["abc123"; "abc123"].
Proof. cbn zeta. repeat split. Qed.

End Poller.

(** * Further properties *)

(** ** Login and register *)

Section SignIn.
Import Auth.

(** A successful [login] stores the token and sets the user and the
    authenticated flag together, leaving every other storage key alone.
    What the job client and the chat then make of it depends on the token:
    a non-empty one is what [getToken] returns and lets [sendMessage]
    through; with an empty one the session shows as authenticated, yet
    [getToken] throws and [sendMessage] is refused. *)
Theorem login_success_persists_token
    (email password : string) (data : Provider.Credentials) (s : Session) :
  let result := Provider.login email password (Ok2xx data) s in
  fst result = Return tt
  /\ user (snd result) = Some (Provider.user data)
  /\ isAuthenticated (snd result) = true
  /\ LocalStorage.getItem "auth_token" (localStorage (snd result))
     = Some (Provider.token data)
  /\ (forall key, key <> "auth_token" ->
        LocalStorage.getItem key (localStorage (snd result))
        = LocalStorage.getItem key (localStorage s))
  /\ (Provider.token data <> EmptyString ->
        UseAnimation.getToken (localStorage (snd result))
        = Return (Provider.token data)
        /\ Chat.authenticated (snd result) = true)
  /\ (Provider.token data = EmptyString ->
        UseAnimation.getToken (localStorage (snd result))
        = Throw (Error "Not authenticated")
        /\ Chat.authenticated (snd result) = false).
Proof.
  cbn zeta.
  set (s' := snd (Provider.login email password (Ok2xx data) s)).
  assert (Hget : LocalStorage.getItem "auth_token" (localStorage s')
                 = Some (Provider.token data)).
  { unfold LocalStorage.getItem. apply lookup_insert_eq. }
  split; [reflexivity|]. split; [reflexivity|]. split; [reflexivity|].
  split; [exact Hget|]. split; [|split].
  - intros key Hkey. unfold LocalStorage.getItem.
    apply lookup_insert_ne. congruence.
  - intros Hne. unfold UseAnimation.getToken, Chat.authenticated.
    rewrite Hget. unfold truthy.
    destruct (String.eqb_spec (Provider.token data) EmptyString) as [Heq | _];
      [contradiction|].
    split; reflexivity.
  - intros Hempty. unfold UseAnimation.getToken, Chat.authenticated.
    rewrite Hget, Hempty. split; [reflexivity|].
    apply andb_false_r.
Qed.

Lemma login_success_persists_token_witness :
  UseAnimation.getToken
    (localStorage
       (snd (Provider.login "alice@example.org" "password123"
               (Ok2xx {| Provider.token := "tok"; Provider.user := Sample.alice |})
               Sample.signed_out)))
  = Return "tok"
  /\ Chat.authenticated
       (snd (Provider.login "alice@example.org" "password123"
               (Ok2xx {| Provider.token := "tok"; Provider.user := Sample.alice |})
               Sample.signed_out))
     = true.
Proof.
  apply (login_success_persists_token "alice@example.org" "password123"
           {| Provider.token := "tok"; Provider.user := Sample.alice |}
           Sample.signed_out).
  discriminate.
Defined.

(** A [login] or [register] that does not get a parsed 2xx response throws,
    and leaves the user, the authenticated flag and the whole storage as
    they were: nothing is persisted, and a token stored earlier is not
    removed. A response that is not ok always gives the fixed text, whatever
    its body says. *)
Theorem login_failure_keeps_session
    (email password name : string) (resp : Fetched Provider.Credentials)
    (s : Session) :
  (forall data, resp <> Ok2xx data) ->
  let signed := Provider.login email password resp s in
  let registered := Provider.register email password name resp s in
  (exists e, fst signed = Throw e)
  /\ (exists e, fst registered = Throw e)
  /\ (non_2xx resp = true ->
        fst signed = Throw (Error "Login failed")
        /\ fst registered = Throw (Error "Registration failed"))
  /\ (forall e, resp = Rejected e ->
        fst signed = Throw e /\ fst registered = Throw e)
  /\ user (snd signed) = user s
  /\ isAuthenticated (snd signed) = isAuthenticated s
  /\ localStorage (snd signed) = localStorage s
  /\ user (snd registered) = user s
  /\ isAuthenticated (snd registered) = isAuthenticated s
  /\ localStorage (snd registered) = localStorage s.
Proof.
  intros Hfail. cbn zeta.
  destruct resp as [e | [|] e | data | m];
    try (exfalso; exact (Hfail data eq_refl));
    (split; [eexists; reflexivity|]);
    (split; [eexists; reflexivity|]);
    (split; [intros H; try discriminate H; split; reflexivity|]);
    (split; [intros e' He'; try discriminate He';
             injection He' as ->; split; reflexivity|]);
    repeat split.
Qed.

Lemma login_failure_keeps_session_witness :
  localStorage
    (snd (Provider.login "alice@example.org" "wrong" (NotOk (Some "Invalid credentials"))
            Sample.signed_in))
  = localStorage Sample.signed_in.
Proof.
  apply (login_failure_keeps_session "alice@example.org" "wrong" "Alice"
           (NotOk (Some "Invalid credentials")) Sample.signed_in).
  intros data. discriminate.
Defined.

(** [logout] undoes whatever [login] did: after it the user, the flag and
    the storage are what [logout] alone would have left. *)
Theorem logout_after_login
    (email password : string) (resp : Fetched Provider.Credentials) (s : Session) :
  let after := snd (logout (snd (Provider.login email password resp s))) in
  user after = None
  /\ isAuthenticated after = false
  /\ localStorage after = localStorage (snd (logout s))
  /\ Chat.authenticated after = false.
Proof.
  cbn zeta.
  destruct resp as [e | [|] e | data | m]; cbn;
    repeat split; try reflexivity.
  unfold LocalStorage.removeItem, LocalStorage.setItem.
  apply delete_insert_eq.
Qed.

(** In the copy that reads the response as text, [login] authenticates
    only on an ok response whose text parses, storing its [access_token]
    with the user and the flag. On every other response it throws and leaves
    the user, the flag and the storage as they were: an ok response whose
    text does not parse gives 'Invalid server response format', and a
    response that is not ok gives the text built from the status line, so
    that the [message] of its body never reaches the caller, whether the
    body parses or not. [register] does the same with its own texts. *)
Theorem direct_login_outcomes
    (address password name : string) (resp : DirectProvider.TextResponse)
    (s : Session) :
  let signed := DirectProvider.login address password resp s in
  let registered := DirectProvider.register address password name resp s in
  (forall data, resp = DirectProvider.OkText (Some data) ->
     fst signed = Return tt
     /\ user (snd signed) = Some (DirectProvider.user data)
     /\ isAuthenticated (snd signed) = true
     /\ LocalStorage.getItem "auth_token" (localStorage (snd signed))
        = Some (DirectProvider.access_token data)
     /\ fst registered = Return tt
     /\ user (snd registered) = user (snd signed)
     /\ isAuthenticated (snd registered) = true
     /\ localStorage (snd registered) = localStorage (snd signed))
  /\ ((forall data, resp <> DirectProvider.OkText (Some data)) ->
      (exists e, fst signed = Throw e)
      /\ (exists e, fst registered = Throw e)
      /\ user (snd signed) = user s
      /\ isAuthenticated (snd signed) = isAuthenticated s
      /\ localStorage (snd signed) = localStorage s
      /\ user (snd registered) = user s
      /\ isAuthenticated (snd registered) = isAuthenticated s
      /\ localStorage (snd registered) = localStorage s)
  /\ (resp = DirectProvider.OkText None ->
      fst signed = Throw (Error "Invalid server response format")
      /\ fst registered = Throw (Error "Invalid server response format"))
  /\ (forall status statusText parsed,
        resp = DirectProvider.FailText status statusText parsed ->
        fst signed
        = Throw (Error ("Login failed: " +:+ pretty status +:+ " " +:+ statusText))
        /\ fst registered
           = Throw (Error ("Registration failed: " +:+ pretty status
                           +:+ " " +:+ statusText))).
Proof.
  cbn zeta. split; [|split; [|split]].
  - intros data ->. cbn. repeat split.
    unfold LocalStorage.getItem, LocalStorage.setItem. apply lookup_insert_eq.
  - intros Hfail.
    destruct resp as [e | e | [data|] | status statusText parsed];
      try (exfalso; exact (Hfail data eq_refl));
      cbn; repeat split; eauto.
  - intros ->. split; reflexivity.
  - intros status statusText parsed ->. split; reflexivity.
Qed.

Lemma direct_login_outcomes_witness :
  fst (DirectProvider.login "alice@example.org" "wrong"
         (DirectProvider.FailText 401 "UNAUTHORIZED"
            (Some (Some "Invalid email or password")))
         Sample.signed_out)
  = Throw (Error "Login failed: 401 UNAUTHORIZED").
Proof.
  apply (direct_login_outcomes "alice@example.org" "wrong" "Alice"
           (DirectProvider.FailText 401 "UNAUTHORIZED"
              (Some (Some "Invalid email or password")))
           Sample.signed_out)
    with (status := 401) (statusText := "UNAUTHORIZED")
         (parsed := Some (Some "Invalid email or password")).
  reflexivity.
Defined.

(** Across a reload only the storage survives. With a non-empty token
    stored, the session after the reload is what the validate request makes
    of it: a parsed 2xx response authenticates with the user it carries and
    keeps the token. With no token stored, or an empty one, no validation is
    made and the session stays unauthenticated whatever the server would
    answer; this is the case after [logout], so a logout holds across
    reloads. *)
Theorem session_across_reload
    (store : gmap string string) (resp : Fetched User) (s : Session) :
  (forall token userData,
     store !! "auth_token" = Some token -> token <> EmptyString ->
     resp = Ok2xx userData ->
     startup resp (mount store)
     = (Return tt,
        {| user := Some userData; isAuthenticated := true;
           localStorage := store; console := [] |}))
  /\ (truthy (store !! "auth_token") = false ->
      startup resp (mount store) = (Return tt, mount store))
  /\ startup resp (mount (localStorage (snd (logout s))))
     = (Return tt, mount (localStorage (snd (logout s)))).
Proof.
  split; [|split].
  - intros token userData Hstored Hne ->. unfold startup, LocalStorage.getItem.
    cbn [localStorage mount]. rewrite Hstored. unfold truthy.
    destruct (String.eqb_spec token EmptyString); [contradiction|]. reflexivity.
  - intros Hnone. unfold startup, LocalStorage.getItem.
    cbn [localStorage mount].
    destruct (store !! "auth_token") as [token|]; [|reflexivity].
    rewrite Hnone. reflexivity.
  - unfold startup. cbn [logout snd localStorage mount setIsAuthenticated
                          setUser removeToken].
    rewrite removeItem_absent. reflexivity.
Qed.

Lemma session_across_reload_witness :
  startup (Ok2xx Sample.alice) (mount (localStorage Sample.signed_in))
  = (Return tt,
     {| user := Some Sample.alice; isAuthenticated := true;
        localStorage := localStorage Sample.signed_in; console := [] |}).
Proof.
  apply (session_across_reload (localStorage Sample.signed_in)
           (Ok2xx Sample.alice) Sample.signed_in) with (token := "tok");
    [reflexivity | discriminate | reflexivity].
Defined.

End SignIn.

(** ** The sign-in dialog *)

Section Dialog.
Import AuthModal.

(** The register form calls [register] exactly when the two passwords are
    equal and have at least 8 characters, with the form's email, password
    and name. Otherwise the provider is not called at all (the session is
    untouched), the form keeps its data, the dialog stays open, and the
    error names the first check that failed, the comparison coming before
    the length. *)
Theorem handleRegister_checks_before_calling
    (resp : Fetched Provider.Credentials) (m : Modal) (s : Auth.Session) :
  let data := registerData m in
  let password := RegisterData.password data in
  let confirm := RegisterData.confirmPassword data in
  (fst (handleRegister_begin m)
   = Some (RegisterData.email data, password, RegisterData.name data)
   <-> password = confirm /\ 8 <= String.length password)
  /\ (fst (handleRegister_begin m) = None
      <-> password <> confirm \/ String.length password < 8)
  /\ (password <> confirm ->
        handleRegister resp m s
        = (setError "Passwords do not match" m, s))
  /\ (password = confirm -> String.length password < 8 ->
        handleRegister resp m s
        = (setError "Password must be at least 8 characters long" m, s)).
Proof.
  cbn zeta. unfold handleRegister, handleRegister_begin.
  cbn [registerData setError].
  destruct (String.eqb_spec (RegisterData.password (registerData m))
              (RegisterData.confirmPassword (registerData m))) as [Heq | Hne];
    cbn [negb].
  - destruct (Nat.ltb_spec (String.length (RegisterData.password (registerData m))) 8)
      as [Hshort | Hlong]; cbn [fst].
    + split; [split; [discriminate | intros [_ H]; lia]|].
      split; [split; [intros _; right; exact Hshort | reflexivity]|].
      split; [intros H; contradiction | intros _ _; reflexivity].
    + split; [split; [intros _; split; assumption | reflexivity]|].
      split; [split; [discriminate | intros [H | H]; [contradiction | lia]]|].
      split; [intros H; contradiction | intros _ H; lia].
  - cbn [fst].
    split; [split; [discriminate | intros [H _]; contradiction]|].
    split; [split; [intros _; left; exact Hne | reflexivity]|].
    split; [intros _; reflexivity | intros H; contradiction].
Qed.

Lemma handleRegister_checks_before_calling_witness :
  let m := {| isLoading := false; error := EmptyString;
              loginData := LoginData.empty;
              registerData :=
                {| RegisterData.email := "alice@example.org";
                   RegisterData.password := "short";
                   RegisterData.confirmPassword := "short";
                   RegisterData.name := "Alice" |};
              onOpenChange := [] |} in
  handleRegister (Ok2xx {| Provider.token := "tok"; Provider.user := Sample.alice |})
    m Sample.signed_out
  = (setError "Password must be at least 8 characters long" m, Sample.signed_out).
Proof.
  intros m.
  apply (handleRegister_checks_before_calling
           (Ok2xx {| Provider.token := "tok"; Provider.user := Sample.alice |})
           m Sample.signed_out).
  - reflexivity.
  - cbn. lia.
Defined.

(** A submitted login form ends with the loading flag off. When [login]
    succeeded the dialog is closed, the form is emptied and the session is
    authenticated with the stored token. When it failed in any way, by a
    refusal of the server or by a network failure alike, the dialog stays
    open with the one text about an invalid email or password, the form
    keeps what was typed, and the session keeps its user, flag and storage. *)
Theorem handleLogin_outcomes
    (resp : Fetched Provider.Credentials) (m : Modal) (s : Auth.Session) :
  let result := handleLogin resp m s in
  isLoading (fst result) = false
  /\ registerData (fst result) = registerData m
  /\ (forall data, resp = Ok2xx data ->
        error (fst result) = EmptyString
        /\ loginData (fst result) = LoginData.empty
        /\ onOpenChange (fst result) = onOpenChange m ++ [false]
        /\ Auth.isAuthenticated (snd result) = true
        /\ Auth.user (snd result) = Some (Provider.user data)
        /\ LocalStorage.getItem "auth_token" (Auth.localStorage (snd result))
           = Some (Provider.token data))
  /\ ((forall data, resp <> Ok2xx data) ->
        error (fst result) = "Invalid email or password. Please try again."
        /\ loginData (fst result) = loginData m
        /\ onOpenChange (fst result) = onOpenChange m
        /\ Auth.isAuthenticated (snd result) = Auth.isAuthenticated s
        /\ Auth.user (snd result) = Auth.user s
        /\ Auth.localStorage (snd result) = Auth.localStorage s).
Proof.
  cbn zeta. unfold handleLogin, handleLogin_begin.
  destruct resp as [e | [|] e | data | msg]; cbn;
    (split; [reflexivity|]); (split; [reflexivity|]); split.
  all: try (intros data' Hd; discriminate Hd).
  all: try (intros _; repeat split; fail).
  - intros data' [= <-]. repeat split.
    unfold LocalStorage.getItem, LocalStorage.setItem. apply lookup_insert_eq.
  - intros Hfail. exfalso. exact (Hfail data eq_refl).
Qed.

Lemma handleLogin_outcomes_witness :
  let m := {| isLoading := false; error := EmptyString;
              loginData := {| LoginData.email := "alice@example.org";
                              LoginData.password := "password123" |};
              registerData := RegisterData.empty;
              onOpenChange := [] |} in
  let result := handleLogin (Rejected (ErrorObj "TypeError" "Failed to fetch"))
                  m Sample.signed_out in
  error (fst result) = "Invalid email or password. Please try again."
  /\ loginData (fst result) = loginData m
  /\ onOpenChange (fst result) = onOpenChange m
  /\ Auth.isAuthenticated (snd result) = Auth.isAuthenticated Sample.signed_out
  /\ Auth.user (snd result) = Auth.user Sample.signed_out
  /\ Auth.localStorage (snd result) = Auth.localStorage Sample.signed_out.
Proof.
  intros m.
  apply (handleLogin_outcomes (Rejected (ErrorObj "TypeError" "Failed to fetch"))
           m Sample.signed_out).
  intros data. discriminate.
Defined.

End Dialog.

(** ** Job client: the other operations *)

Section JobClient.
Import UseAnimation.

(** Without a session, or without a stored token, no operation looks at a
    response: whatever the network would have answered, the outcome is the
    same. generate, status, delete and get throw 'Not authenticated'; list
    throws it only when [isAuthenticated] is false. When it is the flag that
    is false the hook state is untouched; when only the token is missing the
    text is also recorded as the hook's error, and list returns normally. *)
Theorem no_session_no_request
    (isAuthenticated : bool) (store : gmap string string) (animationId : string)
    (g1 g2 : Fetched string) (a1 a2 : Fetched Animation.Animation)
    (d1 d2 : Fetched unit) (l1 l2 : Fetched (list Animation.Animation))
    (h : Hook) :
  isAuthenticated = false \/ token_stored store = false ->
  (generateAnimation isAuthenticated store g1 h
   = generateAnimation isAuthenticated store g2 h
   /\ checkStatus isAuthenticated store a1 h = checkStatus isAuthenticated store a2 h
   /\ getAnimation isAuthenticated store a1 h = getAnimation isAuthenticated store a2 h
   /\ deleteAnimation isAuthenticated store animationId d1 h
      = deleteAnimation isAuthenticated store animationId d2 h
   /\ listAnimations isAuthenticated store l1 h
      = listAnimations isAuthenticated store l2 h)
  /\ (fst (generateAnimation isAuthenticated store g1 h)
      = Throw (Error "Not authenticated")
      /\ fst (checkStatus isAuthenticated store a1 h)
         = Throw (Error "Not authenticated")
      /\ fst (getAnimation isAuthenticated store a1 h)
         = Throw (Error "Not authenticated")
      /\ fst (deleteAnimation isAuthenticated store animationId d1 h)
         = Throw (Error "Not authenticated"))
  /\ (isAuthenticated = false ->
        snd (generateAnimation isAuthenticated store g1 h) = h
        /\ snd (checkStatus isAuthenticated store a1 h) = h
        /\ snd (getAnimation isAuthenticated store a1 h) = h
        /\ snd (deleteAnimation isAuthenticated store animationId d1 h) = h
        /\ listAnimations isAuthenticated store l1 h
           = (Throw (Error "Not authenticated"), h))
  /\ (isAuthenticated = true ->
        error (snd (generateAnimation isAuthenticated store g1 h))
        = Some "Not authenticated"
        /\ error (snd (checkStatus isAuthenticated store a1 h))
           = Some "Not authenticated"
        /\ error (snd (getAnimation isAuthenticated store a1 h))
           = Some "Not authenticated"
        /\ error (snd (deleteAnimation isAuthenticated store animationId d1 h))
           = Some "Not authenticated"
        /\ fst (listAnimations isAuthenticated store l1 h) = Return tt
        /\ error (snd (listAnimations isAuthenticated store l1 h))
           = Some "Not authenticated"
        /\ animations (snd (listAnimations isAuthenticated store l1 h))
           = animations h).
Proof.
  intros [-> | Htok].
  - cbn. repeat split; discriminate.
  - unfold generateAnimation, checkStatus, getAnimation, deleteAnimation,
      listAnimations, request.
    rewrite (getToken_missing store Htok).
    destruct isAuthenticated; cbn; repeat split; discriminate.
Qed.

Lemma no_session_no_request_witness :
  fst (checkStatus true ∅ (Ok2xx (Sample.job "completed" (Some "/v/abc123.mp4") None))
         Sample.empty_hook)
  = Throw (Error "Not authenticated")
  /\ error (snd (checkStatus true ∅
                   (Ok2xx (Sample.job "completed" (Some "/v/abc123.mp4") None))
                   Sample.empty_hook))
     = Some "Not authenticated".
Proof.
  destruct (no_session_no_request true ∅ "abc123"
              (Ok2xx "abc123") (Rejected NonError)
              (Ok2xx (Sample.job "completed" (Some "/v/abc123.mp4") None))
              (Rejected NonError) (Ok2xx tt) (Rejected NonError)
              (Ok2xx []) (Rejected NonError) Sample.empty_hook)
    as (_ & (_ & Hthrow & _) & _ & Hrec).
  - right. reflexivity.
  - split; [exact Hthrow|]. apply Hrec. reflexivity.
Defined.

(** A delete that succeeded (a response that is ok, whatever its body)
    takes out of the cached list every entry with that id and keeps the
    others, in their order; it leaves no error text. A delete that failed
    keeps the cached list as it was, records the error text and throws the
    error on. Either way the loading flag ends false. *)
Theorem deleteAnimation_updates_cache
    (store : gmap string string) (animationId : string)
    (resp : Fetched unit) (h : Hook) :
  token_stored store = true ->
  let result := deleteAnimation true store animationId resp h in
  loading (snd result) = false
  /\ ((exists e, resp = Unparsable true e) \/ (exists u, resp = Ok2xx u) ->
        fst result = Return tt
        /\ error (snd result) = None
        /\ (forall a, a ∈ animations (snd result)
                      <-> a ∈ animations h /\ Animation._id a <> animationId)
        /\ sublist (animations (snd result)) (animations h))
  /\ (~ ((exists e, resp = Unparsable true e) \/ (exists u, resp = Ok2xx u)) ->
        (exists e, fst result = Throw e
                   /\ error (snd result)
                      = Some (message_or e "Failed to delete animation"))
        /\ animations (snd result) = animations h).
Proof.
  intros Htok. destruct (getToken_stored store Htok) as [token Hget].
  cbn zeta. unfold deleteAnimation. cbn [negb]. rewrite Hget.
  destruct resp as [e | [|] e | u | m]; cbn.
  - split; [reflexivity|]. split.
    + intros [[e' H] | [u H]]; discriminate H.
    + intros _. split; [eauto | reflexivity].
  - split; [reflexivity|]. split.
    + intros _. split; [reflexivity|]. split; [reflexivity|]. split.
      * intros a. rewrite list_elem_of_filter. tauto.
      * apply sublist_filter.
    + intros Hno. exfalso. apply Hno. left. eauto.
  - split; [reflexivity|]. split.
    + intros [[e' H] | [u H]]; discriminate H.
    + intros _. split; [eauto | reflexivity].
  - split; [reflexivity|]. split.
    + intros _. split; [reflexivity|]. split; [reflexivity|]. split.
      * intros a. rewrite list_elem_of_filter. tauto.
      * apply sublist_filter.
    + intros Hno. exfalso. apply Hno. right. eauto.
  - split; [reflexivity|]. split.
    + intros [[e' H] | [u H]]; discriminate H.
    + intros _. split; [eauto | reflexivity].
Qed.

Lemma deleteAnimation_updates_cache_witness :
  let h := {| animations := [Sample.job "completed" None None];
              loading := false; error := Some "stale" |} in
  let result := deleteAnimation true {[ "auth_token" := "tok" ]} "abc123"
                  (Ok2xx tt) h in
  fst result = Return tt
  /\ error (snd result) = None
  /\ (forall a, a ∈ animations (snd result)
                <-> a ∈ animations h /\ Animation._id a <> "abc123")
  /\ sublist (animations (snd result)) (animations h).
Proof.
  intros h.
  apply (deleteAnimation_updates_cache {[ "auth_token" := "tok" ]} "abc123"
           (Ok2xx tt) h).
  - reflexivity.
  - right. exists tt. reflexivity.
Defined.

(** generate, status and get never change the cached list. status and get
    never touch the loading flag either, and when they succeed they leave
    the whole hook state as it was, an error text from an earlier failure
    included. generate always ends with the loading flag false, and with no
    error text exactly when it returned. *)
Theorem cache_changes_only_by_list_and_delete
    (isAuthenticated : bool) (store : gmap string string)
    (g : Fetched string) (a : Fetched Animation.Animation) (h : Hook) :
  animations (snd (generateAnimation isAuthenticated store g h)) = animations h
  /\ animations (snd (checkStatus isAuthenticated store a h)) = animations h
  /\ animations (snd (getAnimation isAuthenticated store a h)) = animations h
  /\ loading (snd (checkStatus isAuthenticated store a h)) = loading h
  /\ loading (snd (getAnimation isAuthenticated store a h)) = loading h
  /\ (forall data, fst (checkStatus isAuthenticated store a h) = Return data ->
        snd (checkStatus isAuthenticated store a h) = h)
  /\ (forall data, fst (getAnimation isAuthenticated store a h) = Return data ->
        snd (getAnimation isAuthenticated store a h) = h)
  /\ (isAuthenticated = true ->
        loading (snd (generateAnimation isAuthenticated store g h)) = false
        /\ ((exists animationId,
               fst (generateAnimation isAuthenticated store g h) = Return animationId)
            <-> error (snd (generateAnimation isAuthenticated store g h)) = None)).
Proof.
  unfold generateAnimation, checkStatus, getAnimation.
  destruct isAuthenticated; cbn [negb].
  - destruct (request store g "Failed to generate animation");
      destruct (request store a "Failed to check animation status");
      destruct (request store a "Failed to get animation"); cbn;
      repeat split; try reflexivity; try discriminate; eauto;
      try (intros [? Hret]; discriminate Hret).
  - cbn. repeat split; try discriminate.
Qed.

Lemma cache_changes_only_by_list_and_delete_witness :
  let h := {| animations := [Sample.job "completed" None None];
              loading := false; error := Some "stale" |} in
  snd (checkStatus true {[ "auth_token" := "tok" ]}
         (Ok2xx (Sample.job "generating" None None)) h) = h.
Proof.
  intros h.
  destruct (cache_changes_only_by_list_and_delete true {[ "auth_token" := "tok" ]}
              (Ok2xx "abc123") (Ok2xx (Sample.job "generating" None None)) h)
    as (_ & _ & _ & _ & _ & Hsame & _).
  apply (Hsame (Sample.job "generating" None None)). reflexivity.
Defined.

End JobClient.

(** ** The list of animations and the player *)

Section ListAndPlayer.

(** Whatever page buttons are pressed, starting from page 1 the page number
    never drops below 1. The request made for a page passes the page offset
    as the limit and the page size as the skip: the skip asked for is 5 on
    every page, and the limit is 5 times the number of pages before it, which
    on the first page is 0. *)
Theorem page_requests (bs : list AnimationList.Click) :
  let page := AnimationList.clicks bs 1 in
  let query := AnimationList.listAnimations_call page in
  (1 <= page)%Z
  /\ AnimationList.skip query = 5%Z
  /\ AnimationList.limit query = (5 * (page - 1))%Z
  /\ (0 <= AnimationList.limit query)%Z
  /\ (page = 1%Z ->
      AnimationList.url query
      = "http://localhost:5000/api/animations/list?limit=0&skip=5").
Proof.
  cbn zeta.
  assert (Hpage : forall page, (1 <= page)%Z -> (1 <= AnimationList.clicks bs page)%Z).
  { induction bs as [|b bs IH]; intros page Hp; [exact Hp|].
    cbn. apply IH. destruct b; cbn; lia. }
  specialize (Hpage 1%Z ltac:(lia)).
  unfold AnimationList.listAnimations_call, AnimationList.ITEMS_PER_PAGE.
  cbn [AnimationList.skip AnimationList.limit].
  split; [exact Hpage|]. split; [reflexivity|]. split; [lia|]. split; [lia|].
  intros ->. reflexivity.
Qed.

Lemma page_requests_witness :
  AnimationList.url
    (AnimationList.listAnimations_call
       (AnimationList.clicks [AnimationList.Next; AnimationList.Previous;
                              AnimationList.Previous] 1))
  = "http://localhost:5000/api/animations/list?limit=0&skip=5".
Proof.
  apply (page_requests [AnimationList.Next; AnimationList.Previous;
                        AnimationList.Previous]).
  reflexivity.
Defined.

(** [handleDelete] changes nothing when the confirmation is declined. When
    the delete fails, the error is logged and goes no further, the cached
    list stays as it was and it is not asked for again. When the delete
    succeeds the list is asked for again: the cache then holds what the
    server listed or, when that request fails too, the old list without the
    deleted entries. *)
Theorem handleDelete_outcomes
    (confirmed : bool) (store : gmap string string) (animationId : string)
    (deleted : Fetched unit) (listed : Fetched (list Animation.Animation))
    (h : UseAnimation.Hook) (console : list string) :
  UseAnimation.token_stored store = true ->
  let result :=
    AnimationList.handleDelete confirmed true store animationId deleted listed
      h console in
  (confirmed = false -> result = (h, console))
  /\ (confirmed = true ->
      (exists e, fst (UseAnimation.deleteAnimation true store animationId deleted h)
                 = Throw e) ->
      UseAnimation.animations (fst result) = UseAnimation.animations h
      /\ snd result = console ++ ["Failed to delete animation:"])
  /\ (confirmed = true ->
      fst (UseAnimation.deleteAnimation true store animationId deleted h)
      = Return tt ->
      snd result = console
      /\ (forall l, listed = Ok2xx l ->
            UseAnimation.animations (fst result) = l)
      /\ ((forall l, listed <> Ok2xx l) ->
            forall a, a ∈ UseAnimation.animations (fst result)
                      <-> a ∈ UseAnimation.animations h
                          /\ Animation._id a <> animationId)).
Proof.
  intros Htok. destruct (getToken_stored store Htok) as [token Hget].
  cbn zeta.
  unfold AnimationList.handleDelete, UseAnimation.deleteAnimation,
    UseAnimation.listAnimations, UseAnimation.request.
  cbn [negb]. rewrite Hget.
  destruct confirmed.
  2: { split; [reflexivity|]. split; intros H; discriminate H. }
  split; [discriminate|].
  destruct deleted as [e | [|] e | u | m]; cbn [fst snd];
    (split;
     [ intros _ [e0 He0]; try discriminate He0; split; reflexivity
     | intros _ Hret; try discriminate Hret ]).
  all: split; [reflexivity|].
  all: destruct listed as [e1 | ok1 e1 | l1 | m1]; cbn [fst snd UseAnimation.animations
         UseAnimation.setAnimations UseAnimation.setLoading UseAnimation.setError].
  all: split;
    [ intros l Hl; try discriminate Hl; injection Hl as ->; reflexivity
    | intros Hno a; try (exfalso; exact (Hno l1 eq_refl));
      rewrite list_elem_of_filter; tauto ].
Qed.

Lemma handleDelete_outcomes_witness :
  let h := {| UseAnimation.animations := [Sample.job "completed" None None];
              UseAnimation.loading := false; UseAnimation.error := None |} in
  let result :=
    AnimationList.handleDelete true true {[ "auth_token" := "tok" ]} "abc123"
      (NotOk (Some "Animation not found")) (Ok2xx []) h [] in
  UseAnimation.animations (fst result) = UseAnimation.animations h
  /\ snd result = ["Failed to delete animation:"].
Proof.
  intros h.
  apply (handleDelete_outcomes true {[ "auth_token" := "tok" ]} "abc123"
           (NotOk (Some "Animation not found")) (Ok2xx []) h []).
  - reflexivity.
  - reflexivity.
  - eexists. reflexivity.
Defined.

(** The load effect of the player, on the freshly mounted component, sets
    either the video URL or an error text, never both and never neither. The
    URL is set exactly when the job is completed and has a non-empty video
    path, and it is the backend origin followed by that path; a completed
    job without a video path is reported as not ready yet. *)
Theorem loadAnimation_url_or_error (result : Completion Animation.Animation) :
  let p := AnimationPlayer.loadAnimation result AnimationPlayer.initial in
  ((is_Some (AnimationPlayer.videoUrl p) /\ AnimationPlayer.error p = None)
   \/ (AnimationPlayer.videoUrl p = None /\ is_Some (AnimationPlayer.error p)))
  /\ (forall src,
        AnimationPlayer.videoUrl p = Some src
        <-> exists animation path,
              result = Return animation
              /\ Animation.status animation = "completed"
              /\ Animation.video_path animation = Some path
              /\ path <> EmptyString
              /\ src = "http://localhost:5000" +:+ path)
  /\ (forall animation,
        result = Return animation ->
        Animation.status animation = "completed" ->
        truthy (Animation.video_path animation) = false ->
        AnimationPlayer.error p = Some "Animation is not ready yet").
Proof.
  cbn zeta. unfold AnimationPlayer.loadAnimation.
  destruct result as [animation | err].
  - destruct (String.eqb_spec (Animation.status animation) "completed")
      as [Hdone | Hnot]; cbn [andb].
    + destruct (Animation.video_path animation) as [path|] eqn:Hpath.
      * unfold truthy.
        destruct (String.eqb_spec path EmptyString) as [Hempty | Hfull];
          cbn [negb].
        -- rewrite Hdone. cbn. split; [right; eauto|]. split.
           ++ intros src. split; [discriminate|].
              intros (a & path' & [= <-] & _ & Hp & Hne & _). congruence.
           ++ intros a _ _ _. reflexivity.
        -- cbn. split; [left; eauto|]. split.
           ++ intros src. split.
              ** intros [= <-]. exists animation, path. auto.
              ** intros (a & path' & [= <-] & _ & Hp & _ & ->). congruence.
           ++ intros a [= <-] _ Hfalse.
              rewrite Hpath in Hfalse. cbn in Hfalse.
              destruct (String.eqb_spec path EmptyString);
                [contradiction | discriminate].
      * rewrite Hdone. cbn. split; [right; eauto|]. split.
        -- intros src. split; [discriminate|].
           intros (a & path' & [= <-] & _ & Hp & _). congruence.
        -- intros a _ _ _. reflexivity.
    + split; [|split].
      * destruct (String.eqb (Animation.status animation) "error"); cbn;
          right; eauto.
      * intros src. split.
        -- destruct (String.eqb (Animation.status animation) "error");
             discriminate.
        -- intros (a & path' & [= <-] & Hs & _). contradiction.
      * intros a [= <-] Hs. contradiction.
  - cbn. split; [right; eauto|]. split.
    + intros src. split; [discriminate|].
      intros (a & path' & H & _). discriminate H.
    + intros a H. discriminate H.
Qed.

Lemma loadAnimation_url_or_error_witness :
  AnimationPlayer.error
    (AnimationPlayer.loadAnimation
       (Return (Sample.job "completed" None None)) AnimationPlayer.initial)
  = Some "Animation is not ready yet".
Proof.
  apply (loadAnimation_url_or_error (Return (Sample.job "completed" None None))
           ) with (animation := Sample.job "completed" None None);
    reflexivity.
Defined.

(** The load effect never clears an error: once a load has failed with a
    non-empty text, a later load that finds a completed job with its video
    still renders the error card with the earlier text, not the video. *)
Theorem stale_error_hides_video
    (failure : Thrown) (animation : Animation.Animation) (path : string) :
  message_or failure "Failed to load animation" <> EmptyString ->
  Animation.status animation = "completed" ->
  Animation.video_path animation = Some path ->
  path <> EmptyString ->
  let p :=
    AnimationPlayer.loadAnimation (Return animation)
      (AnimationPlayer.loadAnimation (Throw failure) AnimationPlayer.initial) in
  AnimationPlayer.videoUrl p = Some ("http://localhost:5000" +:+ path)
  /\ AnimationPlayer.view false p
     = AnimationPlayer.ErrorCard (message_or failure "Failed to load animation").
Proof.
  intros Hmsg Hdone Hpath Hfull. cbn zeta.
  assert (Hp : truthy (Some path) = true).
  { unfold truthy. destruct (String.eqb_spec path EmptyString);
      [contradiction | reflexivity]. }
  assert (Hm : truthy (Some (message_or failure "Failed to load animation")) = true).
  { unfold truthy.
    destruct (String.eqb_spec (message_or failure "Failed to load animation")
                EmptyString); [contradiction | reflexivity]. }
  unfold AnimationPlayer.loadAnimation. rewrite Hdone, Hpath, Hp.
  cbn [String.eqb Ascii.eqb Bool.eqb andb].
  split; [reflexivity|].
  unfold AnimationPlayer.view.
  cbn [AnimationPlayer.error AnimationPlayer.setVideoUrl AnimationPlayer.setError
       AnimationPlayer.initial].
  rewrite Hm. reflexivity.
Qed.

Lemma stale_error_hides_video_witness :
  AnimationPlayer.view false
    (AnimationPlayer.loadAnimation
       (Return (Sample.job "completed" (Some "/v/abc123.mp4") None))
       (AnimationPlayer.loadAnimation
          (Throw (ErrorObj "TypeError" "Failed to fetch")) AnimationPlayer.initial))
  = AnimationPlayer.ErrorCard "Failed to fetch".
Proof.
  apply (stale_error_hides_video (ErrorObj "TypeError" "Failed to fetch")
           (Sample.job "completed" (Some "/v/abc123.mp4") None) "/v/abc123.mp4");
    [discriminate | reflexivity | reflexivity | discriminate].
Defined.

End ListAndPlayer.

(** ** The generator: submitting and polling *)

Section GeneratorExtras.
Import Generator GeneratorForm.

Lemma mapAnimationStatus_unknown (s : string) :
  s <> "pending" -> s <> "generating" -> s <> "completed" -> s <> "error" ->
  mapAnimationStatus s = ComponentStatus.idle.
Proof.
  intros H1 H2 H3 H4. unfold mapAnimationStatus.
  destruct (String.eqb_spec s "pending"); [contradiction|].
  destruct (String.eqb_spec s "generating"); [contradiction|].
  destruct (String.eqb_spec s "completed"); [contradiction|].
  destruct (String.eqb_spec s "error"); [contradiction|].
  reflexivity.
Qed.

Lemma resume_idle (animationId : string)
    (animation : Animation.Animation) (c : Component) :
  mounted c = true ->
  mapAnimationStatus (Animation.status animation) = ComponentStatus.idle ->
  pollStatus_resume animationId (Return animation) c
  = {| currentAnimationId := currentAnimationId c;
       status := ComponentStatus.idle;
       error := error c; onAnimationComplete := onAnimationComplete c;
       mounted := true; closure := closure c;
       intervalId := intervalId c; awaiting := awaiting c;
       statusCalls := statusCalls c; completions := completions c |}.
Proof.
  destruct c. cbn [mounted]. intros -> Hs.
  unfold pollStatus_resume. rewrite Hs. reflexivity.
Qed.

Lemma ticks_without_interval (n : nat) (c : Component) :
  intervalId c = false -> run (replicate n Tick) c = c.
Proof.
  intros Hiv. induction n as [|n IH]; [reflexivity|].
  cbn [replicate]. change (run (Tick :: replicate n Tick) c)
    with (run (replicate n Tick) (step Tick c)).
  cbn [step]. rewrite Hiv. exact IH.
Qed.

Lemma ticks_without_job (n : nat) (c : Component) :
  fst (closure c) = None -> run (replicate n Tick) c = c.
Proof.
  intros Hcl. induction n as [|n IH]; [reflexivity|].
  cbn [replicate]. change (run (Tick :: replicate n Tick) c)
    with (run (replicate n Tick) (step Tick c)).
  assert (Hstep : step Tick c = c).
  { cbn [step]. destruct (intervalId c); [|reflexivity].
    unfold pollStatus_begin.
    destruct (closure c) as [[animationId|] st]; [discriminate Hcl | reflexivity]. }
  rewrite Hstep. exact IH.
Qed.

(** Submitting a blank prompt does nothing. On a mounted component that
    holds no job id (as first rendered, or after a job completed or failed),
    a real submission shows generating, and while the generate call is
    pending the interval is already live but its ticks make no status call,
    there being no job id yet. When the generate call fails the component
    shows the error with the thrown message, holds no job id and no interval,
    and never makes a status call afterwards, whatever happens later without
    a new submission. *)
Theorem failed_generation_never_polls
    (err : Thrown) (n : nat) (later : list Step) (c : Component) :
  mounted c = true ->
  currentAnimationId c = None ->
  closure c = (None, status c) ->
  intervalId c = bool_decide (status c = ComponentStatus.generating) ->
  let submitted := handleSubmit_begin false c in
  let failed := handleSubmit_resume (Throw err) submitted in
  handleSubmit_begin true c = c
  /\ (status submitted = ComponentStatus.generating
      /\ intervalId submitted = true
      /\ currentAnimationId submitted = None
      /\ statusCalls submitted = statusCalls c
      /\ run (replicate n Tick) submitted = submitted)
  /\ (status failed = ComponentStatus.error
      /\ error failed = Some (message_or err "Failed to generate animation")
      /\ currentAnimationId failed = None
      /\ intervalId failed = false
      /\ statusCalls (run later failed) = statusCalls c
      /\ completions failed = completions c).
Proof.
  destruct c as [cur st er cb m cl iv aw calls done].
  cbn [mounted currentAnimationId closure status intervalId statusCalls
       completions].
  intros -> -> -> ->. cbn zeta. split; [reflexivity|].
  destruct st.
  all: split;
    [ split; [reflexivity|]; split; [reflexivity|]; split; [reflexivity|];
      split; [reflexivity|]; apply ticks_without_job; reflexivity
    | split; [reflexivity|]; split; [reflexivity|]; split; [reflexivity|];
      split; [reflexivity|]; split; [|reflexivity];
      rewrite run_without_job; reflexivity ].
Qed.

(** The same on the component as first rendered, whose generate call is
    rejected by a network failure. *)
Lemma failed_generation_never_polls_witness :
  status
    (handleSubmit_resume (Throw (Error "Failed to fetch"))
       (handleSubmit_begin false (initial true)))
  = ComponentStatus.error
  /\ statusCalls
       (run [Tick; Tick; Unmount]
          (handleSubmit_resume (Throw (Error "Failed to fetch"))
             (handleSubmit_begin false (initial true))))
     = [].
Proof.
  pose proof (failed_generation_never_polls (Error "Failed to fetch") 0
                [Tick; Tick; Unmount] (initial true)
                eq_refl eq_refl eq_refl eq_refl) as H.
  cbn zeta in H.
  destruct H as (_ & _ & Hstatus & _ & _ & _ & Hcalls & _).
  split; [exact Hstatus | exact Hcalls].
Defined.

(** A status answer whose status is none of pending, generating, completed
    and error stops the polling without a word: the component goes to idle
    and clears its interval, but it reports neither completion nor error and
    keeps the job id; further ticks do nothing. *)
Theorem unknown_status_stops_polling
    (animationId : string) (k n : nat) (animation : Animation.Animation)
    (c : Component) :
  polling animationId c ->
  awaiting c !! k = Some animationId ->
  Animation.status animation <> "pending" ->
  Animation.status animation <> "generating" ->
  Animation.status animation <> "completed" ->
  Animation.status animation <> "error" ->
  let c' := step (Settle k (Return animation)) c in
  status c' = ComponentStatus.idle
  /\ intervalId c' = false
  /\ currentAnimationId c' = Some animationId
  /\ error c' = error c
  /\ completions c' = completions c
  /\ statusCalls c' = statusCalls c
  /\ run (replicate n Tick) c' = c'.
Proof.
  intros Hpoll Hk H1 H2 H3 H4. cbn zeta.
  destruct (settle_while_polling animationId k (Return animation) c Hpoll Hk)
    as (Hstep & Hm & Hcur & Hst & Hcl & Hiv & Herr & Hcb & Hsc & Hco).
  assert (Hafter :
            status (step (Settle k (Return animation)) c) = ComponentStatus.idle
            /\ intervalId (step (Settle k (Return animation)) c) = false
            /\ currentAnimationId (step (Settle k (Return animation)) c)
               = Some animationId
            /\ error (step (Settle k (Return animation)) c) = error c
            /\ completions (step (Settle k (Return animation)) c) = completions c
            /\ statusCalls (step (Settle k (Return animation)) c) = statusCalls c).
  { rewrite Hstep.
    rewrite (resume_idle _ _ _ Hm (mapAnimationStatus_unknown _ H1 H2 H3 H4)).
    rewrite render_changed;
      [| reflexivity
       | cbn [currentAnimationId status closure]; rewrite Hcl; discriminate].
    cbn [effect cleanup currentAnimationId status error intervalId completions
         statusCalls].
    repeat split; assumption. }
  destruct Hafter as (H5 & H6 & H7 & H8 & H9 & H10).
  repeat split; try assumption.
  apply ticks_without_interval. exact H6.
Qed.

Lemma unknown_status_stops_polling_witness :
  let c := step Tick (started "abc123" true) in
  let c' := step (Settle 0 (Return (Sample.job "processing" None None))) c in
  status c' = ComponentStatus.idle
  /\ intervalId c' = false
  /\ currentAnimationId c' = Some "abc123"
  /\ error c' = error c
  /\ completions c' = completions c
  /\ statusCalls c' = statusCalls c
  /\ run (replicate 3 Tick) c' = c'.
Proof.
  intros c.
  apply (unknown_status_stops_polling "abc123" 0 3
           (Sample.job "processing" None None) c).
  - repeat split.
  - reflexivity.
  - discriminate.
  - discriminate.
  - discriminate.
  - discriminate.
Defined.

(** What a tick changes: the two lists of calls, nothing else. *)
Lemma pollStatus_begin_frame (c : Component) :
  let c' := pollStatus_begin c in
  currentAnimationId c' = currentAnimationId c
  /\ status c' = status c
  /\ error c' = error c
  /\ mounted c' = mounted c
  /\ closure c' = closure c
  /\ intervalId c' = intervalId c
  /\ completions c' = completions c
  /\ ((awaiting c' = awaiting c /\ statusCalls c' = statusCalls c)
      \/ exists animationId,
           fst (closure c) = Some animationId
           /\ awaiting c' = awaiting c ++ [animationId]
           /\ statusCalls c' = statusCalls c ++ [animationId]).
Proof.
  unfold pollStatus_begin.
  destruct (closure c) as [[animationId|] st] eqn:Hcl; [|cbn; auto 10].
  destruct st; try (cbn; auto 10; fail).
  destruct (truthy (Some animationId)); cbn; [|auto 10].
  do 7 (split; [reflexivity|]). right. exists animationId. auto.
Qed.

(** The state setters leave the effect alone. *)
Lemma setters_frame (c : Component) :
  (forall v, mounted (setStatus v c) = mounted c
             /\ closure (setStatus v c) = closure c
             /\ intervalId (setStatus v c) = intervalId c)
  /\ (forall v, mounted (setError v c) = mounted c
                /\ closure (setError v c) = closure c
                /\ intervalId (setError v c) = intervalId c)
  /\ (forall v, mounted (setCurrentAnimationId v c) = mounted c
                /\ closure (setCurrentAnimationId v c) = closure c
                /\ intervalId (setCurrentAnimationId v c) = intervalId c).
Proof.
  unfold setStatus, setError, setCurrentAnimationId.
  destruct (mounted c) eqn:Hm; repeat split; cbn; auto.
Qed.

(** A commit leaves the interval live exactly when the mounted component
    shows generating, given that the interval agreed with the closure. *)
Lemma render_interval (c : Component) :
  (mounted c = true ->
   intervalId c = bool_decide (snd (closure c) = ComponentStatus.generating)) ->
  (mounted c = false -> intervalId c = false) ->
  let c' := render c in
  (mounted c' = true ->
   closure c' = (currentAnimationId c', status c')
   /\ intervalId c' = bool_decide (status c' = ComponentStatus.generating))
  /\ (mounted c' = false -> intervalId c' = false).
Proof.
  intros Hon Hoff. cbn zeta.
  destruct (mounted c) eqn:Hm.
  - destruct (decide ((currentAnimationId c, status c) = closure c)) as [Heq | Hne].
    + rewrite (render_unchanged c Heq). rewrite Hm.
      split; [|discriminate]. intros _. split; [symmetry; exact Heq|].
      rewrite (Hon eq_refl), <- Heq. reflexivity.
    + rewrite (render_changed c Hm Hne). cbn. rewrite Hm.
      split; [|discriminate]. intros _. split; reflexivity.
  - assert (Hr : render c = c) by (unfold render; rewrite Hm; reflexivity).
    rewrite Hr, Hm. split; [discriminate | exact Hoff].
Qed.

(** From the first render on, through submissions, generate results, ticks,
    status answers and unmounting, in any order, the polling interval is
    live exactly when the component is mounted and shows generating: no
    interval outlives the generating state or the component. *)
Theorem interval_live_iff_generating (callback : bool) (l : list Action) :
  let c := acts l (initial callback) in
  intervalId c = true <-> mounted c = true /\ status c = ComponentStatus.generating.
Proof.
  cbn zeta.
  assert (Hinv : forall l c,
            ((mounted c = true ->
              closure c = (currentAnimationId c, status c)
              /\ intervalId c = bool_decide (status c = ComponentStatus.generating))
             /\ (mounted c = false -> intervalId c = false)) ->
            (mounted (acts l c) = true ->
             closure (acts l c) = (currentAnimationId (acts l c), status (acts l c))
             /\ intervalId (acts l c)
                = bool_decide (status (acts l c) = ComponentStatus.generating))
            /\ (mounted (acts l c) = false -> intervalId (acts l c) = false)).
  { clear l. induction l as [|a l IH]; intros c Hc; [exact Hc|].
    change (acts (a :: l) c) with (acts l (act a c)). apply IH. clear IH.
    destruct Hc as [Hon Hoff].
    assert (Hpre : forall c0,
              mounted c0 = mounted c -> closure c0 = closure c ->
              intervalId c0 = intervalId c ->
              (mounted c0 = true ->
               intervalId c0
               = bool_decide (snd (closure c0) = ComponentStatus.generating))
              /\ (mounted c0 = false -> intervalId c0 = false)).
    { intros c0 Hm Hcl Hiv. rewrite Hm, Hcl, Hiv. split; [|exact Hoff].
      intros Hmt. destruct (Hon Hmt) as [-> ->]. reflexivity. }
    destruct (setters_frame c) as (Hs1 & Hs2 & Hs3).
    destruct a as [blank | result | s]; cbn [act].
    - unfold handleSubmit_begin. destruct blank; [split; assumption|].
      destruct (setters_frame (setError None c)) as (Hs1' & _ & _).
      destruct (Hs1' ComponentStatus.generating) as (Hm & Hcl & Hiv).
      destruct (Hs2 None) as (Hm' & Hcl' & Hiv').
      apply render_interval;
        apply Hpre; congruence.
    - unfold handleSubmit_resume. destruct result as [animationId | err].
      + destruct (Hs3 (Some animationId)) as (Hm & Hcl & Hiv).
        apply render_interval; apply Hpre; congruence.
      + destruct (setters_frame (setError
                    (Some (message_or err "Failed to generate animation")) c))
          as (Hs1' & _ & _).
        destruct (Hs1' ComponentStatus.error) as (Hm & Hcl & Hiv).
        destruct (Hs2 (Some (message_or err "Failed to generate animation")))
          as (Hm' & Hcl' & Hiv').
        apply render_interval; apply Hpre; congruence.
    - destruct s as [|k result|]; cbn [step].
      + assert (Hcases : (if intervalId c then pollStatus_begin c else c) = c
                         \/ (if intervalId c then pollStatus_begin c else c)
                            = pollStatus_begin c)
          by (destruct (intervalId c); auto).
        destruct Hcases as [-> | ->]; [split; assumption|].
        destruct (pollStatus_begin_frame c)
          as (Hcur & Hst & _ & Hm & Hcl & Hiv' & _).
        rewrite Hm, Hcl, Hcur, Hst, Hiv'. split; assumption.
      + destruct (awaiting c !! k) as [animationId|]; [|split; assumption].
        destruct (pollStatus_resume_frame animationId result (dequeue k c))
          as (Hcl & _ & _ & Hiv & Hm & _).
        apply render_interval; apply Hpre; assumption.
      + unfold unmount, cleanup. cbn. split; [discriminate | reflexivity]. }
  destruct (Hinv l (initial callback)) as [Hon Hoff].
  { split; [intros _; split; reflexivity | discriminate]. }
  split.
  - intros Hiv. destruct (mounted (acts l (initial callback))) eqn:Hm.
    + split; [reflexivity|]. destruct (Hon eq_refl) as [_ Hb].
      rewrite Hiv in Hb. symmetry in Hb. apply bool_decide_eq_true in Hb. exact Hb.
    + rewrite (Hoff eq_refl) in Hiv. discriminate Hiv.
  - intros [Hm Hst]. destruct (Hon Hm) as [_ ->].
    apply bool_decide_eq_true. exact Hst.
Qed.

Lemma interval_live_iff_generating_witness :
  intervalId (acts [Submit false; Generated (Return "abc123");
                    Poll (Settle 0 (Return (Sample.job "completed" None None)))]
                (initial true))
  = true.
Proof.
  apply (interval_live_iff_generating true
           [Submit false; Generated (Return "abc123");
            Poll (Settle 0 (Return (Sample.job "completed" None None)))]).
  split; reflexivity.
Defined.

(** The callbacks a settled status call can make: none, or one with the id
    the call had captured. *)
Lemma pollStatus_resume_completions (animationId : string)
    (result : Completion Animation.Animation) (c : Component) :
  let c' := pollStatus_resume animationId result c in
  completions c' = completions c
  \/ completions c' = completions c ++ [animationId].
Proof.
  destruct c as [cur st err cb m cl iv aw sc co].
  unfold pollStatus_resume.
  destruct result as [animation | e];
    [destruct (mapAnimationStatus (Animation.status animation))|];
    destruct m, cb; cbn; auto.
Qed.

(** One step of a component whose job ids in flight, captured and held are
    all [animationId]: the status calls and callbacks it adds are for that
    id, and each callback uses up one call in flight. *)
Lemma step_same_job (animationId : string) (s : Step) (c : Component) :
  Forall (fun id => id = animationId) (awaiting c) ->
  fst (closure c) = None \/ fst (closure c) = Some animationId ->
  currentAnimationId c = None \/ currentAnimationId c = Some animationId ->
  exists calls fired,
    statusCalls (step s c) = statusCalls c ++ calls
    /\ completions (step s c) = completions c ++ fired
    /\ Forall (fun id => id = animationId) calls
    /\ Forall (fun id => id = animationId) fired
    /\ length fired + length (awaiting (step s c))
       <= length (awaiting c) + length calls
    /\ Forall (fun id => id = animationId) (awaiting (step s c))
    /\ (fst (closure (step s c)) = None
        \/ fst (closure (step s c)) = Some animationId)
    /\ (currentAnimationId (step s c) = None
        \/ currentAnimationId (step s c) = Some animationId).
Proof.
  intros Haw Hcl Hcur.
  assert (Hsame : forall c' : Component,
            statusCalls c' = statusCalls c -> completions c' = completions c ->
            awaiting c' = awaiting c -> closure c' = closure c ->
            currentAnimationId c' = currentAnimationId c ->
            exists calls fired,
              statusCalls c' = statusCalls c ++ calls
              /\ completions c' = completions c ++ fired
              /\ Forall (fun id => id = animationId) calls
              /\ Forall (fun id => id = animationId) fired
              /\ length fired + length (awaiting c')
                 <= length (awaiting c) + length calls
              /\ Forall (fun id => id = animationId) (awaiting c')
              /\ (fst (closure c') = None
                  \/ fst (closure c') = Some animationId)
              /\ (currentAnimationId c' = None
                  \/ currentAnimationId c' = Some animationId)).
  { intros c' Hsc' Hco' Haw' Hcl' Hcur'. exists [], [].
    rewrite Hsc', Hco', Haw', Hcl', Hcur', !app_nil_r. cbn [length].
    split; [reflexivity|]. split; [reflexivity|].
    split; [constructor|]. split; [constructor|].
    split; [lia|]. split; [exact Haw|]. split; [exact Hcl | exact Hcur]. }
  destruct s as [|k result|]; cbn [step].
  - assert (Hcases : (if intervalId c then pollStatus_begin c else c) = c
                     \/ (if intervalId c then pollStatus_begin c else c)
                        = pollStatus_begin c)
      by (destruct (intervalId c); auto).
    destruct Hcases as [-> | ->]; [apply Hsame; reflexivity|].
    destruct (pollStatus_begin_frame c)
      as (Hcur' & _ & _ & _ & Hcl' & _ & Hco' & Hcalls).
    destruct Hcalls as [[Haw' Hsc'] | (id & Hid & Haw' & Hsc')];
      [apply Hsame; assumption|].
    assert (id = animationId) as -> by (destruct Hcl; congruence).
    exists [animationId], [].
    rewrite Hcur', Hcl', Hco', Haw', Hsc', app_nil_r, length_app. cbn [length].
    split; [reflexivity|]. split; [reflexivity|].
    split; [repeat constructor|]. split; [constructor|].
    split; [lia|]. split; [apply Forall_app; split; [exact Haw|repeat constructor]|].
    split; [exact Hcl | exact Hcur].
  - destruct (awaiting c !! k) as [id|] eqn:Hk; [|apply Hsame; reflexivity].
    assert (id = animationId) as ->.
    { eapply (proj1 (Forall_lookup _ _) Haw). exact Hk. }
    destruct (pollStatus_resume_frame animationId result (dequeue k c))
      as (Hcl' & Hsc' & Haw' & _ & _ & Hcur').
    destruct (render_frame (pollStatus_resume animationId result (dequeue k c)))
      as (Hcur'' & _ & _ & Hsc'' & Hco'' & Haw'' & _ & Hcl'').
    assert (Hcurr : currentAnimationId
                      (pollStatus_resume animationId result (dequeue k c)) = None
                    \/ currentAnimationId
                         (pollStatus_resume animationId result (dequeue k c))
                       = Some animationId).
    { destruct Hcur' as [-> | ->]; [exact Hcur | left; reflexivity]. }
    assert (Hclo : fst (closure (render (pollStatus_resume animationId result
                                           (dequeue k c)))) = None
                   \/ fst (closure (render (pollStatus_resume animationId result
                                              (dequeue k c)))) = Some animationId).
    { destruct Hcl'' as [-> | ->]; [rewrite Hcl'; exact Hcl | exact Hcurr]. }
    assert (Hdel : length (delete k (awaiting c)) = length (awaiting c) - 1)
      by (apply length_delete; rewrite Hk; eauto).
    apply lookup_lt_Some in Hk.
    assert (Hfired : exists fired,
              completions (pollStatus_resume animationId result (dequeue k c))
              = completions c ++ fired
              /\ Forall (fun id => id = animationId) fired
              /\ length fired <= 1).
    { destruct (pollStatus_resume_completions animationId result (dequeue k c))
        as [Hco | Hco]; cbn [completions dequeue] in Hco.
      - exists []. rewrite Hco, app_nil_r. split; [reflexivity|].
        split; [constructor | cbn; lia].
      - exists [animationId]. split; [exact Hco|].
        split; [repeat constructor | cbn; lia]. }
    destruct Hfired as (fired & Hco & Hall & Hlen).
    exists [], fired.
    rewrite Hsc'', Hco'', Haw'', Hcur'', Hsc', Haw', Hco, app_nil_r.
    cbn [awaiting statusCalls dequeue length].
    split; [reflexivity|]. split; [reflexivity|].
    split; [constructor|]. split; [exact Hall|].
    split; [lia|]. split; [apply Forall_delete; exact Haw|].
    split; [exact Hclo | exact Hcurr].
  - apply Hsame; reflexivity.
Qed.

(** While every status call still awaiting its answer was made for the job
    being polled, and the job id held and the one the effect captured are
    that job's or none (as on a freshly mounted component after its first
    submission), then until another prompt is submitted every further status
    call is made for that id, the completion callback is only called with
    that id, and it is never called more often than there are status calls
    in flight or made since. *)
Theorem polling_concerns_submitted_job
    (animationId : string) (steps : list Step) (c : Component) :
  Forall (fun id => id = animationId) (awaiting c) ->
  fst (closure c) = None \/ fst (closure c) = Some animationId ->
  currentAnimationId c = None \/ currentAnimationId c = Some animationId ->
  exists calls fired,
    statusCalls (run steps c) = statusCalls c ++ calls
    /\ completions (run steps c) = completions c ++ fired
    /\ Forall (fun id => id = animationId) calls
    /\ Forall (fun id => id = animationId) fired
    /\ length fired <= length (awaiting c) + length calls.
Proof.
  revert c. induction steps as [|s steps IH]; intros c Haw Hcl Hcur.
  { exists [], []. rewrite !app_nil_r. cbn [run foldl length].
    split; [reflexivity|]. split; [reflexivity|].
    split; [constructor|]. split; [constructor | lia]. }
  change (run (s :: steps) c) with (run steps (step s c)).
  destruct (step_same_job animationId s c Haw Hcl Hcur)
    as (calls1 & fired1 & Hsc1 & Hco1 & Hc1 & Hf1 & Hlen1 & Haw1 & Hcl1 & Hcur1).
  destruct (IH (step s c) Haw1 Hcl1 Hcur1)
    as (calls2 & fired2 & Hsc2 & Hco2 & Hc2 & Hf2 & Hlen2).
  exists (calls1 ++ calls2), (fired1 ++ fired2).
  rewrite Hsc2, Hco2, Hsc1, Hco1, <- !app_assoc, !length_app.
  split; [reflexivity|]. split; [reflexivity|].
  split; [apply Forall_app; split; assumption|].
  split; [apply Forall_app; split; assumption | lia].
Qed.

(** The same on a freshly mounted component after its first submission. *)
Lemma polling_concerns_submitted_job_witness :
  exists calls fired,
    statusCalls
      (run [Tick; Settle 0 (Return (Sample.job "completed" None None))]
         (started "abc123" true))
    = statusCalls (started "abc123" true) ++ calls
    /\ completions
         (run [Tick; Settle 0 (Return (Sample.job "completed" None None))]
            (started "abc123" true))
       = completions (started "abc123" true) ++ fired
    /\ Forall (fun id => id = "abc123") calls
    /\ Forall (fun id => id = "abc123") fired
    /\ length fired <= length (awaiting (started "abc123" true)) + length calls.
Proof.
  apply (polling_concerns_submitted_job "abc123"
           [Tick; Settle 0 (Return (Sample.job "completed" None None))]
           (started "abc123" true)).
  - constructor.
  - right. reflexivity.
  - right. reflexivity.
Defined.

(** One round on a polling component with no call pending: the tick issues
    a status call for the job, and an answer of pending or generating leaves
    the component polling as before. *)
Lemma round_keeps_polling (animationId : string)
    (answer : Animation.Animation) (c : Component) :
  polling animationId c ->
  awaiting c = [] ->
  Animation.status answer = "pending" \/ Animation.status answer = "generating" ->
  polling animationId (round answer c)
  /\ awaiting (round answer c) = []
  /\ statusCalls (round answer c) = statusCalls c ++ [animationId]
  /\ completions (round answer c) = completions c
  /\ error (round answer c) = error c.
Proof.
  intros Hpoll Haw Hs.
  destruct c as [cur st err cb m cl iv aw sc co].
  destruct Hpoll as (Hm & Htr & Hcur & Hst & Hcl & Hiv).
  cbn in Hm, Hcur, Hst, Hcl, Hiv, Haw. subst.
  unfold round. cbn [step intervalId]. unfold pollStatus_begin.
  cbn [closure]. rewrite Htr.
  cbn [currentAnimationId status error onAnimationComplete mounted closure
       intervalId awaiting statusCalls completions app lookup list_lookup].
  rewrite resume_generating;
    [| reflexivity | apply mapAnimationStatus_cases; exact Hs].
  rewrite render_unchanged by reflexivity.
  split; [|repeat split].
  unfold polling. repeat split. exact Htr.
Qed.

(** Polling has no bound: as long as the status answers say pending or
    generating, every tick makes one more status call and the component
    keeps polling, however many rounds have passed; nothing is reported. *)
Theorem polling_has_no_bound
    (animationId : string) (callback : bool) (answer : Animation.Animation)
    (n : nat) :
  truthy (Some animationId) = true ->
  Animation.status answer = "pending" \/ Animation.status answer = "generating" ->
  let c := Nat.iter n (round answer) (started animationId callback) in
  polling animationId c
  /\ statusCalls c = replicate n animationId
  /\ awaiting c = []
  /\ completions c = []
  /\ error c = None.
Proof.
  intros Hid Hs. cbn zeta. induction n as [|n IH].
  - cbn [Nat.iter]. split; [apply started_polling; exact Hid | repeat split].
  - rewrite Nat.iter_succ. destruct IH as (Hpoll & Hsc & Haw & Hco & Herr).
    destruct (round_keeps_polling animationId answer _ Hpoll Haw Hs)
      as (Hpoll' & Haw' & Hsc' & Hco' & Herr').
    split; [exact Hpoll'|]. split.
    + rewrite Hsc', Hsc. change (replicate (S n) animationId)
        with (animationId :: replicate n animationId).
      clear. induction n as [|n IH]; [reflexivity|]. cbn. rewrite IH. reflexivity.
    + split; [exact Haw'|]. split; congruence.
Qed.

Lemma polling_has_no_bound_witness :
  statusCalls
    (Nat.iter 3 (round (Sample.job "pending" None None)) (started "abc123" true))
  = ["abc123"; "abc123"; "abc123"].
Proof.
  apply (polling_has_no_bound "abc123" true (Sample.job "pending" None None) 3).
  - reflexivity.
  - left. reflexivity.
Defined.

(** A late answer can leave the component stuck. When the component holds
    no job id any more (the job was reported completed or failed) and a
    status call that was still pending then answers pending or generating,
    the component shows generating again with a live interval; yet with no
    job id its ticks change nothing and no status call is ever made again,
    so no answer to a later call can end that state. *)
Theorem late_answer_strands_generating
    (k n : nat) (stale : string) (answer : Animation.Animation)
    (later : list Step) (c : Component) :
  mounted c = true ->
  currentAnimationId c = None ->
  closure c = (None, status c) ->
  status c <> ComponentStatus.generating ->
  awaiting c !! k = Some stale ->
  Animation.status answer = "pending" \/ Animation.status answer = "generating" ->
  let c' := step (Settle k (Return answer)) c in
  status c' = ComponentStatus.generating
  /\ currentAnimationId c' = None
  /\ intervalId c' = true
  /\ error c' = error c
  /\ completions c' = completions c
  /\ run (replicate n Tick) c' = c'
  /\ statusCalls (run later c') = statusCalls c.
Proof.
  intros Hm Hcur Hcl Hst Hk Hs. cbn zeta.
  assert (Hafter :
            status (step (Settle k (Return answer)) c) = ComponentStatus.generating
            /\ currentAnimationId (step (Settle k (Return answer)) c) = None
            /\ intervalId (step (Settle k (Return answer)) c) = true
            /\ error (step (Settle k (Return answer)) c) = error c
            /\ completions (step (Settle k (Return answer)) c) = completions c
            /\ statusCalls (step (Settle k (Return answer)) c) = statusCalls c
            /\ fst (closure (step (Settle k (Return answer)) c)) = None).
  { cbn [step]. rewrite Hk.
    rewrite resume_generating;
      [| exact Hm | apply mapAnimationStatus_cases; exact Hs].
    rewrite render_changed;
      [| reflexivity
       | cbn [currentAnimationId status closure dequeue]; rewrite Hcl, Hcur;
         intros [= H]; apply Hst; symmetry; exact H].
    cbn [effect cleanup dequeue currentAnimationId status error intervalId
         completions statusCalls closure fst].
    repeat split; try assumption. }
  destruct Hafter as (H1 & H2 & H3 & H4 & H5 & H6 & H7).
  split; [exact H1|]. split; [exact H2|]. split; [exact H3|].
  split; [exact H4|]. split; [exact H5|]. split.
  - apply ticks_without_job. exact H7.
  - rewrite (run_without_job later _ H2 H7). exact H6.
Qed.

Lemma late_answer_strands_generating_witness :
  let c := run [Tick; Tick; Settle 0 (Return (Sample.job "completed" None None))]
             (started "abc123" true) in
  let c' := step (Settle 0 (Return (Sample.job "generating" None None))) c in
  status c = ComponentStatus.completed
  /\ status c' = ComponentStatus.generating
  /\ currentAnimationId c' = None
  /\ intervalId c' = true
  /\ run (replicate 5 Tick) c' = c'.
Proof.
  intros c.
  destruct (late_answer_strands_generating 0 5 "abc123"
              (Sample.job "generating" None None) [] c)
    as (H1 & H2 & H3 & _ & _ & H6 & _).
  - reflexivity.
  - reflexivity.
  - reflexivity.
  - discriminate.
  - reflexivity.
  - right. reflexivity.
  - split; [reflexivity|]. split; [exact H1|]. split; [exact H2|].
    split; [exact H3 | exact H6].
Defined.





End GeneratorExtras.

(** ** Chat: overlapping requests and clearing *)

Section ChatExtras.
Import ChatService Chat ChatOutcome.

Lemma settle_messages (p : Pending)
    (outcome : Completion GenerateAnimationResponse)
    (uuid : string) (now : nat) (c : State) :
  sendMessage_settle p outcome uuid now c
  = {| messages := mark (userMessageId p) (settled outcome) (messages c)
                   ++ [answer outcome uuid now];
       isLoading := false |}.
Proof. destruct outcome; reflexivity. Qed.

Lemma mark_other (uuid : string) (s : Status) (msg : ChatMessage) :
  id msg <> uuid -> mark uuid s [msg] = [msg].
Proof. intros Hne. apply mark_fresh. constructor; [exact Hne | constructor]. Qed.

Lemma answer_id (outcome : Completion GenerateAnimationResponse)
    (uuid : string) (now : nat) :
  id (answer outcome uuid now) = uuid.
Proof. destruct outcome; reflexivity. Qed.

(** Two requests sent before either has settled. The two user entries are
    appended in the order of the calls, and whichever request settles
    first, each of them ends with the status of its own request (completed
    or error, never pending) and keeps its place; the two answers follow in
    the order in which the requests settled. The loading flag is already
    false after the first of them settles, while the other is still out. *)
Theorem overlapping_sends_settle_independently
    (auth : Auth.Session) (content1 content2 : string)
    (u1 u2 a1 a2 : string) (t1 t2 t3 t4 : nat)
    (outcome1 outcome2 : Completion GenerateAnimationResponse) (c : State) :
  authenticated auth = true ->
  Forall (fun msg => id msg <> u1 /\ id msg <> u2) (messages c) ->
  u1 <> u2 -> a1 <> u2 -> a2 <> u1 ->
  exists p1 p2,
    let sent1 := sendMessage_begin auth content1 u1 t1 c in
    let sent2 := sendMessage_begin auth content2 u2 t2 (snd sent1) in
    fst sent1 = Return p1 /\ fst sent2 = Return p2
    /\ messages (snd sent2)
       = messages c ++ [userMessage content1 u1 t1; userMessage content2 u2 t2]
    /\ isLoading (sendMessage_settle p1 outcome1 a1 t3 (snd sent2)) = false
    /\ messages (sendMessage_settle p2 outcome2 a2 t4
                   (sendMessage_settle p1 outcome1 a1 t3 (snd sent2)))
       = messages c
         ++ [with_status (settled outcome1) (userMessage content1 u1 t1);
             with_status (settled outcome2) (userMessage content2 u2 t2);
             answer outcome1 a1 t3; answer outcome2 a2 t4]
    /\ messages (sendMessage_settle p1 outcome1 a1 t4
                   (sendMessage_settle p2 outcome2 a2 t3 (snd sent2)))
       = messages c
         ++ [with_status (settled outcome1) (userMessage content1 u1 t1);
             with_status (settled outcome2) (userMessage content2 u2 t2);
             answer outcome2 a2 t3; answer outcome1 a1 t4].
Proof.
  intros Hauth Hfresh Hu Ha1 Ha2.
  assert (Hf1 : Forall (fun msg => id msg <> u1) (messages c))
    by (eapply Forall_impl; [exact Hfresh | intros ? [? _]; assumption]).
  assert (Hf2 : Forall (fun msg => id msg <> u2) (messages c))
    by (eapply Forall_impl; [exact Hfresh | intros ? [_ ?]; assumption]).
  destruct (sendMessage_begin_authenticated auth content1 u1 t1 c Hauth)
    as (token & _ & Hb1).
  destruct (sendMessage_begin_authenticated auth content2 u2 t2
              {| messages := messages c ++ [userMessage content1 u1 t1];
                 isLoading := true |} Hauth)
    as (token' & _ & Hb2).
  eexists _, _. cbn zeta. rewrite Hb1. cbn [fst snd]. rewrite Hb2. cbn [fst snd].
  split; [reflexivity|]. split; [reflexivity|].
  cbn [messages]. rewrite <- app_assoc. cbn [app].
  split; [reflexivity|]. split; [rewrite settle_messages; reflexivity|].
  rewrite !settle_messages. cbn [messages userMessageId].
  assert (Hm1 : forall s, mark u1 s [userMessage content2 u2 t2]
                          = [userMessage content2 u2 t2]).
  { intros s. apply mark_other. cbn. congruence. }
  assert (Hm2 : forall s, mark u2 s [userMessage content1 u1 t1]
                          = [userMessage content1 u1 t1]).
  { intros s. apply mark_other. cbn. congruence. }
  assert (Hm2' : forall s s', mark u2 s [with_status s' (userMessage content1 u1 t1)]
                              = [with_status s' (userMessage content1 u1 t1)]).
  { intros s s'. apply mark_other. cbn. congruence. }
  assert (Hm1' : forall s s', mark u1 s [with_status s' (userMessage content2 u2 t2)]
                              = [with_status s' (userMessage content2 u2 t2)]).
  { intros s s'. apply mark_other. cbn. congruence. }
  assert (Hans1 : forall s o t, mark u2 s [answer o a1 t] = [answer o a1 t]).
  { intros s o t. apply mark_other. rewrite answer_id. exact Ha1. }
  assert (Hans2 : forall s o t, mark u1 s [answer o a2 t] = [answer o a2 t]).
  { intros s o t. apply mark_other. rewrite answer_id. exact Ha2. }
  change [userMessage content1 u1 t1; userMessage content2 u2 t2]
    with ([userMessage content1 u1 t1] ++ [userMessage content2 u2 t2]).
  split.
  - rewrite !mark_app, !mark_userMessage, Hm1, Hm2', Hans1.
    rewrite (mark_fresh _ _ _ Hf1), (mark_fresh _ _ _ Hf2), mark_userMessage.
    rewrite <- !app_assoc. reflexivity.
  - rewrite !mark_app, !mark_userMessage, Hm2, Hm1', Hans2.
    rewrite (mark_fresh _ _ _ Hf2), (mark_fresh _ _ _ Hf1), mark_userMessage.
    rewrite <- !app_assoc. reflexivity.
Qed.

Lemma overlapping_sends_settle_independently_witness :
  exists p1 p2,
    let sent1 := sendMessage_begin Sample.signed_in "Draw a circle" "m-1" 0
                   Sample.empty_chat in
    let sent2 := sendMessage_begin Sample.signed_in "Now a square" "m-2" 1
                   (snd sent1) in
    fst sent1 = Return p1 /\ fst sent2 = Return p2
    /\ messages (sendMessage_settle p1 (Return Sample.reply) "m-4" 3
                   (sendMessage_settle p2 (Throw (Error "boom")) "m-3" 2 (snd sent2)))
       = [with_status completed (userMessage "Draw a circle" "m-1" 0);
          with_status error (userMessage "Now a square" "m-2" 1);
          errorMessage "m-3" 2;
          assistantMessage Sample.reply "m-4" 3].
Proof.
  destruct (overlapping_sends_settle_independently Sample.signed_in
              "Draw a circle" "Now a square" "m-1" "m-2" "m-4" "m-3" 0 1 2 3
              (Return Sample.reply) (Throw (Error "boom")) Sample.empty_chat)
    as (p1 & p2 & H1 & H2 & _ & _ & _ & Horder).
  - reflexivity.
  - constructor.
  - discriminate.
  - discriminate.
  - discriminate.
  - exists p1, p2. cbn zeta. split; [exact H1|]. split; [exact H2|]. exact Horder.
Defined.

(** [clearMessages] empties the transcript and nothing else: the loading
    flag stays, and a request that is out is not cancelled. When that
    request settles, its answer is appended to the emptied transcript, where
    it stands alone, without the message it answers. *)
Theorem clear_while_request_is_out
    (auth : Auth.Session) (content u a : string) (t t' : nat)
    (outcome : Completion GenerateAnimationResponse) (c : State) :
  authenticated auth = true ->
  exists p,
    fst (sendMessage_begin auth content u t c) = Return p
    /\ let cleared := clearMessages (snd (sendMessage_begin auth content u t c)) in
       messages cleared = []
       /\ isLoading cleared = true
       /\ sendMessage_settle p outcome a t' cleared
          = {| messages := [answer outcome a t']; isLoading := false |}.
Proof.
  intros Hauth.
  destruct (sendMessage_begin_authenticated auth content u t c Hauth)
    as (token & _ & ->).
  eexists. split; [reflexivity|]. cbn zeta.
  split; [reflexivity|]. split; [reflexivity|].
  rewrite settle_messages. reflexivity.
Qed.

Lemma clear_while_request_is_out_witness :
  exists p,
    fst (sendMessage_begin Sample.signed_in "Draw a circle" "m-1" 0 Sample.empty_chat)
    = Return p
    /\ let cleared :=
         clearMessages
           (snd (sendMessage_begin Sample.signed_in "Draw a circle" "m-1" 0
                   Sample.empty_chat)) in
       messages cleared = []
       /\ isLoading cleared = true
       /\ sendMessage_settle p (Return Sample.reply) "m-2" 1 cleared
          = {| messages := [answer (Return Sample.reply) "m-2" 1];
               isLoading := false |}.
Proof.
  apply (clear_while_request_is_out Sample.signed_in "Draw a circle" "m-1" "m-2"
           0 1 (Return Sample.reply) Sample.empty_chat).
  reflexivity.
Defined.

(** A chat-history load that arrives while a request is out replaces the
    transcript, the pending user entry included. When the request settles
    there is no entry left to mark: the answer is appended after the loaded
    history, and the message it answers appears nowhere in the transcript. *)
Theorem history_load_drops_pending_message
    (auth : Auth.Session) (content u a token : string) (t t' : nat)
    (history : list ChatMessage)
    (outcome : Completion GenerateAnimationResponse) (c : State) :
  authenticated auth = true ->
  Forall (fun msg => id msg <> u) history ->
  a <> u ->
  exists p,
    fst (sendMessage_begin auth content u t c) = Return p
    /\ let loaded :=
         loadChatHistory token (Ok2xx history)
           (snd (sendMessage_begin auth content u t c)) in
       messages loaded = history
       /\ isLoading loaded = true
       /\ sendMessage_settle p outcome a t' loaded
          = {| messages := history ++ [answer outcome a t']; isLoading := false |}
       /\ Forall (fun msg => id msg <> u)
            (messages (sendMessage_settle p outcome a t' loaded)).
Proof.
  intros Hauth Hfresh Ha.
  destruct (sendMessage_begin_authenticated auth content u t c Hauth)
    as (tok & _ & ->).
  eexists. split; [reflexivity|]. cbn zeta.
  split; [reflexivity|]. split; [reflexivity|].
  assert (Hsettle : sendMessage_settle
                      {| userMessageId := u; sent_content := content;
                         sent_token := tok |} outcome a t'
                      (loadChatHistory token (Ok2xx history)
                         {| messages := messages c ++ [userMessage content u t];
                            isLoading := true |})
                    = {| messages := history ++ [answer outcome a t'];
                         isLoading := false |}).
  { rewrite settle_messages. cbn [userMessageId].
    unfold loadChatHistory, getChatHistory, setMessages. cbn [messages].
    rewrite (mark_fresh _ _ _ Hfresh). reflexivity. }
  split; [exact Hsettle|].
  cbn [fst snd]. rewrite Hsettle. cbn [messages].
  apply Forall_app. split; [exact Hfresh|].
  constructor; [rewrite answer_id; exact Ha | constructor].
Qed.

Lemma history_load_drops_pending_message_witness :
  exists p,
    fst (sendMessage_begin Sample.signed_in "Draw a circle" "m-1" 0 Sample.empty_chat)
    = Return p
    /\ sendMessage_settle p (Return Sample.reply) "m-2" 1
         (loadChatHistory "tok" (Ok2xx [])
            (snd (sendMessage_begin Sample.signed_in "Draw a circle" "m-1" 0
                    Sample.empty_chat)))
       = {| messages := [assistantMessage Sample.reply "m-2" 1];
            isLoading := false |}.
Proof.
  destruct (history_load_drops_pending_message Sample.signed_in "Draw a circle"
              "m-1" "m-2" "tok" 0 1 [] (Return Sample.reply) Sample.empty_chat)
    as (p & Hp & _ & _ & Hsettle & _).
  - reflexivity.
  - constructor.
  - discriminate.
  - exists p. split; [exact Hp | exact Hsettle].
Defined.

End ChatExtras.

(** ** The auth routes *)

Section AuthRoutes.
Import Routes.

Lemma strip_append (pattern rest : string) :
  strip pattern (pattern +:+ rest) = Some rest.
Proof.
  induction pattern as [|a pattern IH]; [destruct rest; reflexivity|].
  change (String a pattern +:+ rest) with (String a (pattern +:+ rest)).
  cbn [strip]. rewrite Ascii.eqb_refl. exact IH.
Qed.

Lemma remove_first_unfold (pattern s : string) :
  remove_first pattern s
  = match strip pattern s with
    | Some rest => rest
    | None =>
        match s with
        | EmptyString => EmptyString
        | String a s' => String a (remove_first pattern s')
        end
    end.
Proof. destruct s; reflexivity. Qed.

Lemma remove_first_prefix (pattern rest : string) :
  remove_first pattern (pattern +:+ rest) = rest.
Proof. rewrite remove_first_unfold, strip_append. reflexivity. Qed.

(** The validate route on a Bearer header with a token that is not empty. *)
Lemma GET_with_bearer
    (verify : string -> string -> option Payload)
    (JWT_SECRET : option string) (token : string) :
  token <> EmptyString ->
  GET verify JWT_SECRET (Some (bearer token))
  = match verify token (secret JWT_SECRET) with
    | Some decoded =>
        {| status := 200;
           body := UserBody {| Auth.id := userId decoded;
                               Auth.email := email decoded;
                               Auth.name := "Demo User" |} |}
    | None => {| status := 401; body := ErrorBody "Invalid token" |}
    end.
Proof.
  intros Hne. unfold GET. cbn [option_map]. rewrite remove_first_prefix.
  unfold truthy. destruct (String.eqb_spec token EmptyString); [contradiction|].
  reflexivity.
Qed.

(** The validate route takes from an authorization value of the form the
    providers send, 'Bearer ' followed by the token, exactly that token. It
    answers 200 only when [jwt.verify] accepts the token, with the id and
    email of the verified payload and the fixed name 'Demo User'; a token
    that does not verify gets 401 'Invalid token'. No header and an empty
    header get 401 'No token provided' without [jwt.verify] being asked. A
    header of 'Bearer' with no token, which is what the handler reads when
    'Bearer ' alone was sent, is not caught by that test: the word 'Bearer'
    itself is given to [jwt.verify] as the token, so that the answer is
    'Invalid token' when it does not verify. *)
Theorem validate_route_reads_bearer_token
    (verify : string -> string -> option Payload)
    (JWT_SECRET : option string) (token : string) :
  remove_first "Bearer " (bearer token) = token
  /\ (token <> EmptyString ->
      GET verify JWT_SECRET (Some (bearer token))
      = match verify token (secret JWT_SECRET) with
        | Some decoded =>
            {| status := 200;
               body := UserBody {| Auth.id := userId decoded;
                                   Auth.email := email decoded;
                                   Auth.name := "Demo User" |} |}
        | None => {| status := 401; body := ErrorBody "Invalid token" |}
        end)
  /\ GET verify JWT_SECRET None
     = {| status := 401; body := ErrorBody "No token provided" |}
  /\ GET verify JWT_SECRET (Some EmptyString)
     = {| status := 401; body := ErrorBody "No token provided" |}
  /\ GET verify JWT_SECRET (Some "Bearer")
     = match verify "Bearer" (secret JWT_SECRET) with
       | Some decoded =>
           {| status := 200;
              body := UserBody {| Auth.id := userId decoded;
                                  Auth.email := email decoded;
                                  Auth.name := "Demo User" |} |}
       | None => {| status := 401; body := ErrorBody "Invalid token" |}
       end.
Proof.
  assert (Hrm : remove_first "Bearer " (bearer token) = token)
    by apply remove_first_prefix.
  split; [exact Hrm|]. split; [apply GET_with_bearer|].
  split; [reflexivity|]. split; reflexivity.
Qed.

Lemma validate_route_reads_bearer_token_witness :
  GET (fun token _ => if String.eqb token "good"
                      then Some {| userId := "1"; email := "alice@example.org" |}
                      else None)
    None (Some "Bearer good")
  = {| status := 200;
       body := UserBody {| Auth.id := "1"; Auth.email := "alice@example.org";
                           Auth.name := "Demo User" |} |}.
Proof.
  apply (validate_route_reads_bearer_token
           (fun token _ => if String.eqb token "good"
                           then Some {| userId := "1"; email := "alice@example.org" |}
                           else None)
           None "good").
  discriminate.
Defined.

(** A token issued by the login route, sent back in a Bearer header, makes
    the validate route return the very user the login route returned: id
    '1', the email of the request, the name 'Demo User', whatever email was
    given. A token issued by the register route gives back the id and email
    of the registration, but the name 'Demo User' in place of the registered
    name. This holds when [jwt.verify] returns the payload that was signed
    and tokens are not empty; both routes use the same secret, the
    environment's or the built-in one. *)
Theorem issued_tokens_validate
    (sign : Payload -> string -> string)
    (verify : string -> string -> option Payload)
    (JWT_SECRET : option string)
    (address password name now hashed : string) :
  (forall payload,
     payload = {| userId := "1"; email := address |}
     \/ payload = {| userId := now; email := address |} ->
     verify (sign payload (secret JWT_SECRET)) (secret JWT_SECRET) = Some payload
     /\ sign payload (secret JWT_SECRET) <> EmptyString) ->
  (exists token user,
     POST_login sign JWT_SECRET (Some (address, password)) (Some true)
     = {| status := 200; body := SessionBody token user |}
     /\ user = {| Auth.id := "1"; Auth.email := address; Auth.name := "Demo User" |}
     /\ GET verify JWT_SECRET (Some (bearer token))
        = {| status := 200; body := UserBody user |})
  /\ (exists token user,
        POST_register sign JWT_SECRET (Some (address, password, name))
          (Some hashed) now
        = {| status := 200; body := SessionBody token user |}
        /\ user = {| Auth.id := now; Auth.email := address; Auth.name := name |}
        /\ GET verify JWT_SECRET (Some (bearer token))
           = {| status := 200;
                body := UserBody {| Auth.id := now; Auth.email := address;
                                    Auth.name := "Demo User" |} |}).
Proof.
  intros Hjwt. split.
  - destruct (Hjwt {| userId := "1"; email := address |} (or_introl eq_refl))
      as [Hv Hne].
    eexists _, _. split; [reflexivity|]. split; [reflexivity|].
    rewrite (GET_with_bearer verify JWT_SECRET _ Hne).
    rewrite Hv. reflexivity.
  - destruct (Hjwt {| userId := now; email := address |} (or_intror eq_refl))
      as [Hv Hne].
    eexists _, _. split; [reflexivity|]. split; [reflexivity|].
    rewrite (GET_with_bearer verify JWT_SECRET _ Hne).
    rewrite Hv. reflexivity.
Qed.

Lemma issued_tokens_validate_witness :
  let sign := fun (payload : Payload) (_ : string) =>
                userId payload +:+ "|" +:+ email payload in
  let verify := fun (token : string) (_ : string) =>
                  if String.eqb token "1|alice@example.org"
                  then Some {| userId := "1"; email := "alice@example.org" |}
                  else if String.eqb token "1700000000000|alice@example.org"
                  then Some {| userId := "1700000000000";
                               email := "alice@example.org" |}
                  else None in
  exists token user,
    POST_register sign None (Some ("alice@example.org", "password123", "Alice"))
      (Some "$2a$10$hash") "1700000000000"
    = {| status := 200; body := SessionBody token user |}
    /\ user = {| Auth.id := "1700000000000"; Auth.email := "alice@example.org";
                 Auth.name := "Alice" |}
    /\ GET verify None (Some (bearer token))
       = {| status := 200;
            body := UserBody {| Auth.id := "1700000000000";
                                Auth.email := "alice@example.org";
                                Auth.name := "Demo User" |} |}.
Proof.
  intros sign verify.
  apply (issued_tokens_validate sign verify None "alice@example.org"
           "password123" "Alice" "1700000000000" "$2a$10$hash").
  intros payload [-> | ->]; split; [reflexivity | discriminate
                                   | reflexivity | discriminate].
Defined.

End AuthRoutes.
